(** * Traffic analytics engine: session-and-command plane

    A shallow embedding of the server side of the traffic analytics engine:
    the token-bucket rate limiter ([websocket/rate-limiter.js]), the
    WebSocket connection handler ([websocket/server.js]), the admin routes
    ([routes/admin.js]), the beacon route and the rate limit of the main
    server, followed by the properties of the specification that concern
    them.

    Conventions of the embedding.
    - JavaScript numbers that hold counts and millisecond timestamps are
      integers ([Z]); the one place where the code divides, [getViolationStats],
      is kept in IEEE-754 binary64 ([PrimFloat]), as JavaScript computes it.
    - [Date.now()] is an explicit argument [now].  One synchronous call of a
      method reads one clock value; [Clocked] gives every read of an admission
      call a value of its own.
    - A JavaScript [Map] keyed by strings is a [gmap string _].
    - Mutation of [this] is explicit state passing: a method returns its
      result together with the updated state. *)

From Stdlib Require Import ZArith Lia Bool List String.
From Stdlib Require Import PrimFloat Uint63.
From stdpp Require Import gmap strings list pretty.

Local Open Scope string_scope.
Local Open Scope Z_scope.
Local Open Scope list_scope.

#[local] Set Warnings "-register-all".

(** ** JavaScript helpers *)

(** [Math.floor(a / b)] on integers, for [b <> 0]. *)
Definition js_floor_div (a b : Z) : Z := a / b.

(** [Math.ceil(a / b)] on integers, for [b <> 0]. *)
Definition js_ceil_div (a b : Z) : Z := - ((- a) / b).

(** The binary64 value of an integer (exact below [2^53]). *)
Definition js_number (z : Z) : float :=
  if z <? 0 then PrimFloat.opp (PrimFloat.of_uint63 (Uint63.of_Z (- z)))
  else PrimFloat.of_uint63 (Uint63.of_Z z).

(** [o || d] for a numeric option: [undefined] and [0] are falsy. *)
Definition or_default (o : option Z) (d : Z) : Z :=
  match o with
  | Some v => if v =? 0 then d else v
  | None => d
  end.

(** The effect of the trailing [...options] of an object literal on one key:
    an own key of [options] overrides what was computed before it. *)
Definition spread {A : Type} (o : option A) (computed : A) : A :=
  match o with
  | Some v => v
  | None => computed
  end.

(** ** TokenBucket *)

Module TokenBucket.

Record t : Type := mk {
  capacity : Z;        (* maximum tokens *)
  tokens : Z;          (* current tokens *)
  refillRate : Z;      (* tokens added per interval *)
  refillInterval : Z;  (* interval in ms *)
  lastRefill : Z
}.

(** [new TokenBucket(capacity, refillRate, refillInterval)] at time [now]. *)
Definition new (capacity refillRate refillInterval now : Z) : t :=
  {| capacity := capacity; tokens := capacity; refillRate := refillRate;
     refillInterval := refillInterval; lastRefill := now |}.

Definition intervalsElapsed (now : Z) (b : t) : Z :=
  js_floor_div (now - lastRefill b) (refillInterval b).

(** [refill()] *)
Definition refill (now : Z) (b : t) : t :=
  if 0 <? intervalsElapsed now b then
    let tokensToAdd := intervalsElapsed now b * refillRate b in
    {| capacity := capacity b;
       tokens := Z.min (capacity b) (tokens b + tokensToAdd);
       refillRate := refillRate b;
       refillInterval := refillInterval b;
       lastRefill := now |}
  else b.

Definition setTokens (n : Z) (b : t) : t :=
  {| capacity := capacity b; tokens := n; refillRate := refillRate b;
     refillInterval := refillInterval b; lastRefill := lastRefill b |}.

(** [tryConsume(tokens)] *)
Definition tryConsume (cost now : Z) (b : t) : bool * t :=
  let b1 := refill now b in
  if cost <=? tokens b1 then (true, setTokens (tokens b1 - cost) b1)
  else (false, b1).

(** [getTokens()] *)
Definition getTokens (now : Z) (b : t) : Z * t :=
  let b1 := refill now b in (tokens b1, b1).

End TokenBucket.

(** ** RateLimiter *)

Module RateLimiter.

(** The argument of the constructor: every key may be absent. *)
Record RawOptions : Type := mkRaw {
  raw_capacity : option Z;
  raw_refillRate : option Z;
  raw_refillInterval : option Z;
  raw_maxEventsPerSecond : option Z;
  raw_autoThrottle : option bool;
  raw_throttleLatency : option Z;
  raw_banThreshold : option Z;
  raw_banDuration : option Z
}.

Definition noOptions : RawOptions :=
  mkRaw None None None None None None None None.

Record Options : Type := mkOptions {
  capacity : Z;
  refillRate : Z;
  refillInterval : Z;
  maxEventsPerSecond : Z;
  autoThrottle : bool;
  throttleLatency : Z;
  banThreshold : Z;
  banDuration : Z
}.

(** The [this.options = { ...defaults, ...options }] of the constructor. *)
Definition makeOptions (o : RawOptions) : Options :=
  {| capacity := spread (raw_capacity o) (or_default (raw_capacity o) 10);
     refillRate := spread (raw_refillRate o) (or_default (raw_refillRate o) 5);
     refillInterval :=
       spread (raw_refillInterval o) (or_default (raw_refillInterval o) 1000);
     maxEventsPerSecond :=
       spread (raw_maxEventsPerSecond o) (or_default (raw_maxEventsPerSecond o) 5);
     autoThrottle :=
       spread (raw_autoThrottle o)
              (match raw_autoThrottle o with Some b => b | None => true end);
     throttleLatency :=
       spread (raw_throttleLatency o) (or_default (raw_throttleLatency o) 2000);
     banThreshold :=
       spread (raw_banThreshold o) (or_default (raw_banThreshold o) 50);
     banDuration :=
       spread (raw_banDuration o) (or_default (raw_banDuration o) 300000) |}.

Record Violation : Type := mkViolation {
  count : Z;
  firstViolation : Z;
  lastViolation : Z
}.

Record Ban : Type := mkBan {
  bannedAt : Z;
  duration : Z;
  reason : string
}.

Record t : Type := mk {
  options : Options;
  buckets : gmap string TokenBucket.t;
  violations : gmap string Violation;
  bannedSessions : gmap string Ban
}.

(** [new RateLimiter(options)] *)
Definition new (o : RawOptions) : t :=
  {| options := makeOptions o; buckets := ∅; violations := ∅;
     bannedSessions := ∅ |}.

Definition setBuckets (m : gmap string TokenBucket.t) (r : t) : t :=
  {| options := options r; buckets := m; violations := violations r;
     bannedSessions := bannedSessions r |}.

Definition setViolations (m : gmap string Violation) (r : t) : t :=
  {| options := options r; buckets := buckets r; violations := m;
     bannedSessions := bannedSessions r |}.

Definition setBanned (m : gmap string Ban) (r : t) : t :=
  {| options := options r; buckets := buckets r; violations := violations r;
     bannedSessions := m |}.

(** [getBucket(sessionId)]: get or create. *)
Definition getBucket (sessionId : string) (now : Z) (r : t) : TokenBucket.t * t :=
  match buckets r !! sessionId with
  | Some b => (b, r)
  | None =>
      let b := TokenBucket.new (capacity (options r)) (refillRate (options r))
                               (refillInterval (options r)) now in
      (b, setBuckets (<[sessionId := b]> (buckets r)) r)
  end.

(** [ban(sessionId, duration)] *)
Definition ban (sessionId : string) (d now : Z) (r : t) : t :=
  setBanned
    (<[sessionId := {| bannedAt := now; duration := d;
                       reason := "excessive_rate_limit_violations" |}]>
       (bannedSessions r)) r.

(** [isBanned(sessionId)]: an expired ban is removed on the way. *)
Definition isBanned (sessionId : string) (now : Z) (r : t) : bool * t :=
  match bannedSessions r !! sessionId with
  | None => (false, r)
  | Some b =>
      let elapsed := now - bannedAt b in
      if duration b <=? elapsed then
        (false, setBanned (delete sessionId (bannedSessions r)) r)
      else (true, r)
  end.

(** [getBanTimeRemaining(sessionId)] *)
Definition getBanTimeRemaining (sessionId : string) (now : Z) (r : t) : Z :=
  match bannedSessions r !! sessionId with
  | None => 0
  | Some b => Z.max 0 (duration b - (now - bannedAt b))
  end.

(** [unban(sessionId)] *)
Definition unban (sessionId : string) (r : t) : t :=
  setViolations (delete sessionId (violations r))
    (setBanned (delete sessionId (bannedSessions r)) r).

(** [reset(sessionId)] *)
Definition reset (sessionId : string) (r : t) : t :=
  setViolations (delete sessionId (violations r))
    (setBuckets (delete sessionId (buckets r)) r).

(** [recordViolation(sessionId)] *)
Definition recordViolation (sessionId : string) (now : Z) (r : t) : Violation * t :=
  let v0 :=
    match violations r !! sessionId with
    | Some v => v
    | None => {| count := 0; firstViolation := now; lastViolation := now |}
    end in
  let v := {| count := count v0 + 1; firstViolation := firstViolation v0;
              lastViolation := now |} in
  let r1 := setViolations (<[sessionId := v]> (violations r)) r in
  if banThreshold (options r) <=? count v then
    (v, ban sessionId (banDuration (options r)) now r1)
  else (v, r1).

(** [calculateRetryAfter(bucket)]: [Math.ceil(1 / refillRate) * refillInterval];
    [None] stands for the non-finite value JavaScript yields when
    [refillRate] is [0]. *)
Definition calculateRetryAfter (r : t) : option Z :=
  if refillRate (options r) =? 0 then None
  else Some (js_ceil_div 1 (refillRate (options r)) * refillInterval (options r)).

(** The object returned by [isAllowed]. *)
Inductive Admission : Type :=
| Allow (tokensRemaining : Z)
| DenyBanned (retryAfter : Z)
| DenyRateLimit (tokensAvailable : Z) (retryAfter : option Z).

Definition allowed (a : Admission) : bool :=
  match a with Allow _ => true | _ => false end.

(** [isAllowed(sessionId, cost)] *)
Definition isAllowed (sessionId : string) (cost now : Z) (r : t) : Admission * t :=
  let '(isb, r1) := isBanned sessionId now r in
  if isb then (DenyBanned (getBanTimeRemaining sessionId now r1), r1)
  else
    let '(bucket, r2) := getBucket sessionId now r1 in
    let '(ok, bucket1) := TokenBucket.tryConsume cost now bucket in
    let r3 := setBuckets (<[sessionId := bucket1]> (buckets r2)) r2 in
    if ok then
      let '(n, bucket2) := TokenBucket.getTokens now bucket1 in
      (Allow n, setBuckets (<[sessionId := bucket2]> (buckets r3)) r3)
    else
      let '(_, r4) := recordViolation sessionId now r3 in
      let '(n, bucket2) := TokenBucket.getTokens now bucket1 in
      let r5 := setBuckets (<[sessionId := bucket2]> (buckets r4)) r4 in
      (DenyRateLimit n (calculateRetryAfter r5), r5).

(** The object returned by [getViolationStats]. *)
Record Stats : Type := mkStats {
  stats_count : Z;
  eventsPerSecond : float;
  shouldThrottle : bool;
  stats_throttleLatency : Z
}.

(** [getViolationStats(sessionId)]; [None] is JavaScript's [null]. *)
Definition getViolationStats (sessionId : string) (now : Z) (r : t) : option Stats :=
  match violations r !! sessionId with
  | None => None
  | Some v =>
      let d := now - firstViolation v in
      let eps :=
        PrimFloat.mul (PrimFloat.div (js_number (count v)) (js_number d))
                      (js_number 1000) in
      Some {| stats_count := count v;
              eventsPerSecond := eps;
              shouldThrottle :=
                PrimFloat.ltb (js_number (maxEventsPerSecond (options r))) eps;
              stats_throttleLatency := throttleLatency (options r) |}
  end.

Definition maxAge : Z := 3600000.

(** [cleanup()] *)
Definition cleanup (now : Z) (r : t) : t :=
  {| options := options r;
     buckets :=
       filter (fun kv => ¬ (maxAge < now - TokenBucket.lastRefill kv.2)) (buckets r);
     violations :=
       filter (fun kv => ¬ (maxAge < now - lastViolation kv.2)) (violations r);
     bannedSessions :=
       filter (fun kv => ¬ (duration kv.2 <= now - bannedAt kv.2)) (bannedSessions r) |}.

(** The options the WebSocket server constructs its limiter with. *)
Definition serverOptions : RawOptions :=
  {| raw_capacity := Some 20; raw_refillRate := Some 5;
     raw_refillInterval := None; raw_maxEventsPerSecond := Some 5;
     raw_autoThrottle := Some true; raw_throttleLatency := Some 2000;
     raw_banThreshold := Some 50; raw_banDuration := Some 300000 |}.

(** *** Runs of limiter operations *)

(** A cost-1 admission call: the key and the clock value it reads. *)
Definition Call : Type := string * Z.

(** The number of calls on [key] among [calls] that are admitted, running
    them in order from [r]. *)
Fixpoint admitted (key : string) (calls : list Call) (r : t) : Z :=
  match calls with
  | [] => 0
  | (k, now) :: rest =>
      let '(a, r1) := isAllowed k 1 now r in
      (if allowed a && bool_decide (k = key) then 1 else 0) + admitted key rest r1
  end.

(** The operations a caller interleaves with admission while a ban runs. *)
Inductive Op : Type :=
| OpIsAllowed (sessionId : string) (cost : Z)
| OpIsBanned (sessionId : string)
| OpGetViolationStats (sessionId : string)
| OpReset (sessionId : string)
| OpCleanup.

Definition step (o : Op) (now : Z) (r : t) : t :=
  match o with
  | OpIsAllowed k cost => (isAllowed k cost now r).2
  | OpIsBanned k => (isBanned k now r).2
  | OpGetViolationStats _ => r
  | OpReset k => reset k r
  | OpCleanup => cleanup now r
  end.

Fixpoint run (ops : list (Op * Z)) (r : t) : t :=
  match ops with
  | [] => r
  | (o, now) :: rest => run rest (step o now r)
  end.

End RateLimiter.

(** ** JSON values

    What [JSON.parse] yields, and [undefined].  Numbers are integers. *)

Inductive JSValue : Type :=
| JUndefined
| JNull
| JBool (b : bool)
| JNum (n : Z)
| JStr (s : string)
| JArr (items : list JSValue)
| JObj (fields : list (string * JSValue)).

(** JavaScript truthiness. *)
Definition truthy (v : JSValue) : bool :=
  match v with
  | JUndefined | JNull => false
  | JBool b => b
  | JNum n => negb (n =? 0)
  | JStr s => negb (String.eqb s "")
  | JArr _ | JObj _ => true
  end.

Fixpoint assoc (k : string) (fields : list (string * JSValue)) : JSValue :=
  match fields with
  | [] => JUndefined
  | (k', v) :: rest => if String.eqb k k' then v else assoc k rest
  end.

(** [v.k].  [None] is the [TypeError] of reading a property of [undefined]
    or [null]; primitives and arrays have no such own property. *)
Definition get_prop (v : JSValue) (k : string) : option JSValue :=
  match v with
  | JUndefined | JNull => None
  | JObj fields => Some (assoc k fields)
  | _ => Some JUndefined
  end.

(** [for (const x of v)]: the items of an array, the characters of a string;
    [None] is the [TypeError] of a value that is not iterable. *)
Definition iterate (v : JSValue) : option (list JSValue) :=
  match v with
  | JArr items => Some items
  | JStr s => Some (map (fun c => JStr (String c EmptyString)) (list_ascii_of_string s))
  | _ => None
  end.

(** [{ ...v, k1: v1, ... }]: the own fields of an object, overridden. *)
Definition own_fields (v : JSValue) : list (string * JSValue) :=
  match v with
  | JObj fields => fields
  | JArr items => imap (fun i x => (pretty i, x)) items
  | JStr s =>
      imap (fun i c => (pretty i, JStr (String c EmptyString))) (list_ascii_of_string s)
  | _ => []
  end.

Definition set_fields (v : JSValue) (updates : list (string * JSValue)) : JSValue :=
  JObj (filter (fun kv => negb (existsb (fun u => String.eqb (fst u) (fst kv)) updates))
               (own_fields v) ++ updates).

(** ** Commands *)

Inductive CommandType : Type :=
| SET_LATENCY | TERMINATE | TOAST_ALERT | REDIRECT.

Inductive Payload : Type :=
| PLatency (latency_ms : Z)
| PReason (reason : string)
| PToast (message type : string) (duration : Z)
| PRedirect (url : string) (newTab : bool).

(** A command envelope; [uuidv4()] ids are drawn from a counter, and the
    [TERMINATE] the connection handler sends on a ban carries none. *)
Record Command : Type := mkCommand {
  cmd_id : option N;
  cmd_type : CommandType;
  cmd_payload : Payload
}.

(** ** The event log (ClickHouseService, the [@clickhouse/client] variant)

    Rows are kept as the events they are formatted from; of
    [formatEventRow] only the validation that can throw is modelled. *)

Module ClickHouse.

Record RateViolation : Type := mkRateViolation {
  rv_sessionHash : option string;
  rv_ipAddress : string;
  rv_eventsPerSecond : float;
  rv_thresholdExceeded : Z
}.

Record t : Type := mk {
  eventQueue : list JSValue;
  events : list JSValue;                 (* rows of table [events] *)
  rate_limit_violations : list RateViolation;
  isShuttingDown : bool;
  batchSize : Z;
  up : bool                              (* whether [client.insert] succeeds *)
}.

Definition MAX_QUEUE_SIZE : Z := 10000.

Definition setQueue (q : list JSValue) (c : t) : t :=
  {| eventQueue := q; events := events c;
     rate_limit_violations := rate_limit_violations c;
     isShuttingDown := isShuttingDown c; batchSize := batchSize c; up := up c |}.

(** The check at the head of [formatEventRow]: [event.sessionHash] is a
    non-empty string.  An [event] that is [null] or [undefined] throws too. *)
Definition validEvent (event : JSValue) : bool :=
  match get_prop event "sessionHash" with
  | Some (JStr s) => negb (String.eqb s "")
  | _ => false
  end.

(** [flush()] *)
Definition flush (c : t) : t :=
  match eventQueue c with
  | [] => c
  | batch =>
      if up c then
        {| eventQueue := []; events := events c ++ batch;
           rate_limit_violations := rate_limit_violations c;
           isShuttingDown := isShuttingDown c; batchSize := batchSize c; up := up c |}
      else
        (* the queue was emptied before the insert: re-queue up to 1000 *)
        setQueue (take 1000 batch) c
  end.

(** [logEvent(event)]; [None] when it throws. *)
Definition logEvent (event : JSValue) (c : t) : option t :=
  if isShuttingDown c then Some c
  else if MAX_QUEUE_SIZE <=? Z.of_nat (length (eventQueue c)) then Some c
  else if validEvent event then
    let c1 := setQueue (eventQueue c ++ [event]) c in
    if batchSize c <=? Z.of_nat (length (eventQueue c1)) then Some (flush c1)
    else Some c1
  else None.

(** [logRateViolation(violation)]: a failed insert is logged and dropped. *)
Definition logRateViolation (v : RateViolation) (c : t) : t :=
  if up c then
    {| eventQueue := eventQueue c; events := events c;
       rate_limit_violations := rate_limit_violations c ++ [v];
       isShuttingDown := isShuttingDown c; batchSize := batchSize c; up := up c |}
  else c.

End ClickHouse.

(** ** The session store (PostgresService) *)

Module Postgres.

Inductive Mode : Type := normal | upspin | downspin | terminated.

(** A row of [sessions]: the columns the server writes after the insert. *)
Record Session : Type := mkSession {
  ip_address : string;
  connected : bool;
  last_seen : Z;
  current_latency_ms : Z;
  mode : Mode;
  total_events : Z;
  risk_score : Z;
  is_bot : bool;
  rate_limit_violations : Z
}.

Inductive Status : Type := pending | sent | acknowledged | failed.

Record CommandRow : Type := mkCommandRow {
  command_id : option N;
  session_hash : string;
  command_type : CommandType;
  command_payload : Payload;
  admin_id : string;
  admin_ip : string;
  status : Status;
  acknowledged_at : option Z
}.

Record t : Type := mk {
  sessions : gmap string Session;
  command_history : list CommandRow;
  up : bool                              (* whether [pool.query] succeeds *)
}.

Definition setSessions (m : gmap string Session) (p : t) : t :=
  {| sessions := m; command_history := command_history p; up := up p |}.

Definition setHistory (h : list CommandRow) (p : t) : t :=
  {| sessions := sessions p; command_history := h; up := up p |}.

Definition newSession (ip : string) (now : Z) : Session :=
  {| ip_address := ip; connected := true; last_seen := now;
     current_latency_ms := 0; mode := normal; total_events := 0;
     risk_score := 0; is_bot := false; rate_limit_violations := 0 |}.

(** [upsertSession(session)]: a failed query returns [null] and changes
    nothing. *)
Definition upsertSession (hash ip : string) (now : Z) (p : t) : t :=
  if up p then
    let row :=
      match sessions p !! hash with
      | None => newSession ip now
      | Some s =>
          {| ip_address := ip; connected := true; last_seen := now;
             current_latency_ms := current_latency_ms s; mode := mode s;
             total_events := total_events s; risk_score := risk_score s;
             is_bot := is_bot s; rate_limit_violations := rate_limit_violations s |}
      end in
    setSessions (<[hash := row]> (sessions p)) p
  else p.

(** [updateSessionStatus(sessionHash, connected)] *)
Definition updateSessionStatus (hash : string) (c : bool) (now : Z) (p : t) : t :=
  if up p then
    setSessions
      (alter (fun s =>
                {| ip_address := ip_address s; connected := c; last_seen := now;
                   current_latency_ms := current_latency_ms s; mode := mode s;
                   total_events := total_events s; risk_score := risk_score s;
                   is_bot := is_bot s;
                   rate_limit_violations := rate_limit_violations s |})
             hash (sessions p)) p
  else p.

(** [incrementEventCount(sessionHash, count)] *)
Definition incrementEventCount (hash : string) (n now : Z) (p : t) : t :=
  if up p then
    setSessions
      (alter (fun s =>
                {| ip_address := ip_address s; connected := connected s;
                   last_seen := now;
                   current_latency_ms := current_latency_ms s; mode := mode s;
                   total_events := total_events s + n; risk_score := risk_score s;
                   is_bot := is_bot s;
                   rate_limit_violations := rate_limit_violations s |})
             hash (sessions p)) p
  else p.

Definition setMode (m : Mode) (latency : Z) (s : Session) : Session :=
  {| ip_address := ip_address s; connected := connected s; last_seen := last_seen s;
     current_latency_ms := latency; mode := m;
     total_events := total_events s; risk_score := risk_score s;
     is_bot := is_bot s; rate_limit_violations := rate_limit_violations s |}.

(** [updateSessionMode(sessionHash, mode, latency)]: an [UPDATE ... WHERE
    session_hash = $3]; a failed query is rethrown ([None]). *)
Definition updateSessionMode (hash : string) (m : Mode) (latency : Z) (p : t)
  : option t :=
  if up p then Some (setSessions (alter (setMode m latency) hash (sessions p)) p)
  else None.

(** [updateRiskScore(sessionHash, riskScore, isBot)] *)
Definition updateRiskScore (hash : string) (score : Z) (bot : bool) (p : t) : t :=
  if up p then
    setSessions
      (alter (fun s =>
                {| ip_address := ip_address s; connected := connected s;
                   last_seen := last_seen s;
                   current_latency_ms := current_latency_ms s; mode := mode s;
                   total_events := total_events s; risk_score := score;
                   is_bot := bot;
                   rate_limit_violations := rate_limit_violations s |})
             hash (sessions p)) p
  else p.

(** [incrementViolations(sessionHash)] *)
Definition incrementViolations (hash : string) (p : t) : t :=
  if up p then
    setSessions
      (alter (fun s =>
                {| ip_address := ip_address s; connected := connected s;
                   last_seen := last_seen s;
                   current_latency_ms := current_latency_ms s; mode := mode s;
                   total_events := total_events s; risk_score := risk_score s;
                   is_bot := is_bot s;
                   rate_limit_violations := rate_limit_violations s + 1 |})
             hash (sessions p)) p
  else p.

(** [getSession(sessionHash)]: [null] when absent or when the query fails. *)
Definition getSession (hash : string) (p : t) : option Session :=
  if up p then sessions p !! hash else None.

(** [logCommand(command)]: an [INSERT ... SELECT ... FROM sessions WHERE
    session_hash = $7], so a row is written only for a known session; a
    failed query is rethrown ([None]). *)
Definition logCommand (row : CommandRow) (p : t) : option t :=
  if up p then
    match sessions p !! session_hash row with
    | Some _ => Some (setHistory (command_history p ++ [row]) p)
    | None => Some p
    end
  else None.

(** [updateCommandStatus(commandId, status, result)] *)
Definition updateCommandStatus (id : option N) (st : Status) (now : Z) (p : t) : t :=
  if up p then
    setHistory
      (map (fun row =>
              if bool_decide (command_id row = id) then
                {| command_id := command_id row; session_hash := session_hash row;
                   command_type := command_type row;
                   command_payload := command_payload row;
                   admin_id := admin_id row; admin_ip := admin_ip row;
                   status := st; acknowledged_at := Some now |}
              else row)
           (command_history p)) p
  else p.

(** [getCommandHistory(sessionHash, limit = 50)]: the latest first. *)
Definition getCommandHistory (hash : string) (p : t) : list CommandRow :=
  if up p then
    take 50 (reverse (filter (fun row => bool_decide (session_hash row = hash))
                             (command_history p)))
  else [].

End Postgres.

(** ** The command bus (RedisService) *)

Module Redis.

Record t : Type := mk {
  published : list (string * Command);   (* messages on [traffic:commands] *)
  online : gmap string Z;                (* the sorted set [online] *)
  up : bool                              (* whether the server answers *)
}.

(** [publish('traffic:commands', { sessionHash, command })]; [None] when it
    throws. *)
Definition publish (sessionHash : string) (command : Command) (r : t) : option t :=
  if up r then
    Some {| published := published r ++ [(sessionHash, command)];
            online := online r; up := up r |}
  else None.

(** [trackOnlineSession(sessionHash)] *)
Definition trackOnlineSession (sessionHash : string) (now : Z) (r : t) : option t :=
  if up r then
    Some {| published := published r;
            online := <[sessionHash := now]> (online r); up := up r |}
  else None.

(** [getOnlineSessions()]: entries older than five minutes are removed
    first. *)
Definition getOnlineSessions (now : Z) (r : t) : option (list string * t) :=
  if up r then
    let live := filter (fun kv => ¬ (0 <= kv.2 <= now - 300000)) (online r) in
    Some ((map_to_list live).*1,
          {| published := published r; online := live; up := up r |})
  else None.

End Redis.

(** ** The stores a request handler works on *)

Record World : Type := mkWorld {
  pg : Postgres.t;
  redis : Redis.t;
  clickhouse : ClickHouse.t;
  next_uuid : N                          (* the supply of [uuidv4()] *)
}.

Definition setPg (p : Postgres.t) (w : World) : World :=
  {| pg := p; redis := redis w; clickhouse := clickhouse w; next_uuid := next_uuid w |}.

Definition setRedis (r : Redis.t) (w : World) : World :=
  {| pg := pg w; redis := r; clickhouse := clickhouse w; next_uuid := next_uuid w |}.

Definition setClickhouse (c : ClickHouse.t) (w : World) : World :=
  {| pg := pg w; redis := redis w; clickhouse := c; next_uuid := next_uuid w |}.

(** [uuidv4()] *)
Definition uuidv4 (w : World) : N * World :=
  (next_uuid w,
   {| pg := pg w; redis := redis w; clickhouse := clickhouse w;
      next_uuid := N.succ (next_uuid w) |}).

(** ** The admin routes ([routes/admin.js])

    Request bodies are typed as the API declares them; a key that is absent
    is [None]. *)

Module Admin.

Inductive Route : Type :=
| GetSessions            (* GET  /admin/sessions *)
| GetSession             (* GET  /admin/sessions/:sessionHash *)
| PostUpspin             (* POST /admin/sessions/:sessionHash/upspin *)
| PostDownspin           (* POST /admin/sessions/:sessionHash/downspin *)
| PostTerminate          (* POST /admin/sessions/:sessionHash/terminate *)
| PostNotify             (* POST /admin/sessions/:sessionHash/notify *)
| PostRedirect           (* POST /admin/sessions/:sessionHash/redirect *)
| GetAnalytics           (* GET  /admin/analytics *)
| GetStats               (* GET  /admin/stats *)
| GetHighRisk            (* GET  /admin/high-risk *)
| PostBatchAction.       (* POST /admin/batch-action *)

Record Body : Type := mkBody {
  latency_ms : option Z;
  reason : option string;
  message : option string;
  type : option string;
  duration : option Z;
  url : option string;
  newTab : option bool;
  action : option string;
  sessionHashes : option (list string);  (* [Some] when it is an array *)
  payload_latency_ms : option Z;         (* [payload.latency_ms] *)
  payload_reason : option string         (* [payload.reason] *)
}.

(** [request.body || {}] *)
Definition emptyBody : Body :=
  mkBody None None None None None None None None None None None.

Record Request : Type := mkRequest {
  x_api_key : option string;             (* [request.headers['x-api-key']] *)
  x_admin_id : option string;            (* [request.headers['x-admin-id']] *)
  ip : string;
  sessionHash : string;                  (* [request.params.sessionHash] *)
  minutes : option Z;                    (* [parseInt(request.query.minutes)] *)
  hours : option Z;
  body : option Body
}.

(** The bodies of the replies.  What the read routes take from ClickHouse
    (timeline, analytics) and from the WebSocket server (statistics) is left
    out of them. *)
Inductive ResponseBody : Type :=
| RError (error : string)
| RSessions (count : Z) (rows : list (string * Postgres.Session))
| RSession (session : Postgres.Session) (commands : list Postgres.CommandRow)
| RCommand (message sessionHash : string) (command : Command)
| RAnalytics
| RStats (online : Z)
| RBatch (action : string) (affected : Z) (results : list (string * Command)).

Record Response : Type := mkResponse {
  status : Z;
  payload : ResponseBody
}.

Definition defaultKey : string := "dev-admin-key-change-in-production".

(** [process.env.ADMIN_API_KEY || 'dev-admin-key-change-in-production'] *)
Definition validKey (env : option string) : string :=
  match env with
  | Some k => if String.eqb k "" then defaultKey else k
  | None => defaultKey
  end.

(** The [preHandler] hook: [Some] is the reply it sends. *)
Definition preHandler (env : option string) (request : Request) : option Response :=
  if bool_decide (x_api_key request = Some (validKey env)) then None
  else Some (mkResponse 401 (RError "Unauthorized")).

Definition pgError : string := "postgres query failed".
Definition redisError : string := "redis command failed".

Definition error500 (msg : string) : Response := mkResponse 500 (RError msg).
Definition ok (b : ResponseBody) : Response := mkResponse 200 b.

(** [s || d] for a string. *)
Definition str_or (o : option string) (d : string) : string :=
  match o with
  | Some s => if String.eqb s "" then d else s
  | None => d
  end.

(** The common tail of the command routes: publish on the bus, write the
    audit row, answer. *)
Definition publishAndLog (request : Request) (command : Command) (msg : string)
    (w : World) : Response * World :=
  let hash := sessionHash request in
  match Redis.publish hash command (redis w) with
  | None => (error500 redisError, w)
  | Some r1 =>
      let w1 := setRedis r1 w in
      let row :=
        {| Postgres.command_id := cmd_id command;
           Postgres.session_hash := hash;
           Postgres.command_type := cmd_type command;
           Postgres.command_payload := cmd_payload command;
           Postgres.admin_id := str_or (x_admin_id request) "api";
           Postgres.admin_ip := str_or (Some (ip request)) "127.0.0.1";
           Postgres.status := Postgres.pending;
           Postgres.acknowledged_at := None |} in
      match Postgres.logCommand row (pg w1) with
      | None => (error500 pgError, w1)
      | Some p1 => (ok (RCommand msg hash command), setPg p1 w1)
      end
  end.

(** A mode route: update the session store, then the common tail. *)
Definition modeRoute (request : Request) (m : Postgres.Mode) (latency : Z)
    (ty : CommandType) (p : Payload) (msg : string) (w : World) : Response * World :=
  match Postgres.updateSessionMode (sessionHash request) m latency (pg w) with
  | None => (error500 pgError, w)
  | Some p1 =>
      let '(id, w1) := uuidv4 (setPg p1 w) in
      publishAndLog request (mkCommand (Some id) ty p) msg w1
  end.

Definition bodyOf (request : Request) : Body := default emptyBody (body request).

Definition postUpspin (request : Request) (w : World) : Response * World :=
  modeRoute request Postgres.upspin 0 SET_LATENCY (PLatency 0)
            "Priority mode activated" w.

Definition postDownspin (request : Request) (w : World) : Response * World :=
  let latency := default 2000 (latency_ms (bodyOf request)) in
  modeRoute request Postgres.downspin latency SET_LATENCY (PLatency latency)
            "Throttle mode activated" w.

Definition postTerminate (request : Request) (w : World) : Response * World :=
  let r := default "Session terminated by administrator" (reason (bodyOf request)) in
  modeRoute request Postgres.terminated 0 TERMINATE (PReason r)
            "Session terminated" w.

Definition postNotify (request : Request) (w : World) : Response * World :=
  let b := bodyOf request in
  match message b with
  | Some m =>
      if String.eqb m "" then (mkResponse 400 (RError "Message is required"), w)
      else
        let '(id, w1) := uuidv4 w in
        publishAndLog request
          (mkCommand (Some id) TOAST_ALERT
             (PToast m (default "info" (type b)) (default 5000 (duration b))))
          "Notification sent" w1
  | None => (mkResponse 400 (RError "Message is required"), w)
  end.

Definition postRedirect (request : Request) (w : World) : Response * World :=
  let b := bodyOf request in
  match url b with
  | Some u =>
      if String.eqb u "" then (mkResponse 400 (RError "URL is required"), w)
      else
        let '(id, w1) := uuidv4 w in
        publishAndLog request
          (mkCommand (Some id) REDIRECT (PRedirect u (default false (newTab b))))
          "Redirect command sent" w1
  | None => (mkResponse 400 (RError "URL is required"), w)
  end.

(** The view [active_sessions], read by [getActiveSessions(minutesAgo)] (the
    order of the rows is not modelled). *)
Definition getActiveSessions (minutesAgo now : Z) (p : Postgres.t)
  : list (string * Postgres.Session) :=
  if Postgres.up p then
    map_to_list
      (filter (fun kv : string * Postgres.Session =>
                 Postgres.connected kv.2 = true ∧
                 now - 300000 < Postgres.last_seen kv.2 ∧
                 now - Postgres.last_seen kv.2 < minutesAgo * 60 * 1000)
              (Postgres.sessions p))
  else [].

(** The view [high_risk_sessions], read with [LIMIT 100] (the order of the
    rows is not modelled). *)
Definition getHighRiskSessions (p : Postgres.t) : list (string * Postgres.Session) :=
  if Postgres.up p then
    take 100
      (map_to_list
         (filter (fun kv : string * Postgres.Session =>
                    50 < Postgres.risk_score kv.2 ∨ Postgres.is_bot kv.2 = true)
                 (Postgres.sessions p)))
  else [].

Definition getSessions (request : Request) (now : Z) (w : World) : Response * World :=
  let rows := getActiveSessions (or_default (minutes request) 5) now (pg w) in
  (ok (RSessions (Z.of_nat (length rows)) rows), w).

Definition getSession (request : Request) (w : World) : Response * World :=
  match Postgres.getSession (sessionHash request) (pg w) with
  | None => (mkResponse 404 (RError "Session not found"), w)
  | Some s =>
      (ok (RSession s (Postgres.getCommandHistory (sessionHash request) (pg w))), w)
  end.

Definition getStats (now : Z) (w : World) : Response * World :=
  match Redis.getOnlineSessions now (redis w) with
  | None => (error500 redisError, w)
  | Some (online, r1) => (ok (RStats (Z.of_nat (length online))), setRedis r1 w)
  end.

Definition getHighRisk (w : World) : Response * World :=
  let rows := getHighRiskSessions (pg w) in
  (ok (RSessions (Z.of_nat (length rows)) rows), w).

(** The [switch (action)] of the batch route: [None] is the [default:
    continue]. *)
Definition batchCommand (act : string) (b : Body)
  : option (Postgres.Mode * Z * CommandType * Payload) :=
  if String.eqb act "upspin" then
    Some (Postgres.upspin, 0, SET_LATENCY, PLatency 0)
  else if String.eqb act "downspin" then
    let l := or_default (payload_latency_ms b) 2000 in
    Some (Postgres.downspin, l, SET_LATENCY, PLatency l)
  else if String.eqb act "terminate" then
    Some (Postgres.terminated, 0, TERMINATE,
          PReason (str_or (payload_reason b) "Batch termination"))
  else None.

(** The loop of the batch route; [inl] is the message of the error that
    left it. *)
Fixpoint batchLoop (act : string) (b : Body) (hashes : list string)
    (results : list (string * Command)) (w : World)
  : (string + list (string * Command)) * World :=
  match hashes with
  | [] => (inr results, w)
  | hash :: rest =>
      match batchCommand act b with
      | None => batchLoop act b rest results w
      | Some (m, latency, ty, p) =>
          match Postgres.updateSessionMode hash m latency (pg w) with
          | None => (inl pgError, w)
          | Some p1 =>
              let '(id, w1) := uuidv4 (setPg p1 w) in
              let command := mkCommand (Some id) ty p in
              match Redis.publish hash command (redis w1) with
              | None => (inl redisError, w1)
              | Some r1 =>
                  batchLoop act b rest (results ++ [(hash, command)]) (setRedis r1 w1)
              end
          end
      end
  end.

Definition postBatchAction (request : Request) (w : World) : Response * World :=
  let b := bodyOf request in
  match action b, sessionHashes b with
  | Some act, Some hashes =>
      if String.eqb act "" then (mkResponse 400 (RError "Invalid request"), w)
      else
        match batchLoop act b hashes [] w with
        | (inl msg, w1) => (error500 msg, w1)
        | (inr results, w1) =>
            (ok (RBatch act (Z.of_nat (length results)) results), w1)
        end
  | _, _ => (mkResponse 400 (RError "Invalid request"), w)
  end.

(** The handler registered for each route. *)
Definition handler (route : Route) (request : Request) (now : Z) (w : World)
  : Response * World :=
  match route with
  | GetSessions => getSessions request now w
  | GetSession => getSession request w
  | PostUpspin => postUpspin request w
  | PostDownspin => postDownspin request w
  | PostTerminate => postTerminate request w
  | PostNotify => postNotify request w
  | PostRedirect => postRedirect request w
  | GetAnalytics => (ok RAnalytics, w)
  | GetStats => getStats now w
  | GetHighRisk => getHighRisk w
  | PostBatchAction => postBatchAction request w
  end.

(** The life cycle Fastify gives a request to a route of the plugin: the
    [preHandler] hook runs first, and when it has sent a reply the route
    handler is not run. *)
Definition serve (env : option string) (route : Route) (request : Request)
    (now : Z) (w : World) : Response * World :=
  match preHandler env request with
  | Some reply => (reply, w)
  | None => handler route request now w
  end.



End Admin.

(** ** The connection handler ([websocket/server.js])

    One message is handled to completion before the next.  A [sessionHash]
    that is not a non-empty string counts as absent. *)

Module WebSocketServer.

Inductive ReadyState : Type := OPEN | CLOSING | CLOSED.

Inductive Frame : Type :=
| FConnected (connectionId : string) (timestamp : Z)
| FPing (timestamp : Z)
| FCommand (command : Command).

Record Connection : Type := mkConnection {
  id : string;
  readyState : ReadyState;               (* [ws.readyState] *)
  sentFrames : list Frame;               (* what [ws.send] was given *)
  ip : string;
  sessionHash : option string;
  connectedAt : Z;
  lastActivity : Z;
  eventCount : Z
}.

Record t : Type := mk {
  connections : gmap string Connection;
  rateLimiter : RateLimiter.t
}.

(** The state the constructor leaves. *)
Definition new : t :=
  {| connections := ∅; rateLimiter := RateLimiter.new RateLimiter.serverOptions |}.

Definition setConnections (m : gmap string Connection) (s : t) : t :=
  {| connections := m; rateLimiter := rateLimiter s |}.

Definition setRateLimiter (r : RateLimiter.t) (s : t) : t :=
  {| connections := connections s; rateLimiter := r |}.

(** The connection object of [connectionId] is mutated in place. *)
Definition putConnection (connectionId : string) (c : Connection) (s : t) : t :=
  setConnections (<[connectionId := c]> (connections s)) s.

(** [sendToClient(ws, message)] *)
Definition sendToClient (f : Frame) (c : Connection) : Connection :=
  match readyState c with
  | OPEN =>
      {| id := id c; readyState := OPEN; sentFrames := sentFrames c ++ [f];
         ip := ip c; sessionHash := sessionHash c; connectedAt := connectedAt c;
         lastActivity := lastActivity c; eventCount := eventCount c |}
  | _ => c
  end.

(** [ws.close()] *)
Definition close (c : Connection) : Connection :=
  {| id := id c;
     readyState := match readyState c with OPEN => CLOSING | st => st end;
     sentFrames := sentFrames c; ip := ip c; sessionHash := sessionHash c;
     connectedAt := connectedAt c; lastActivity := lastActivity c;
     eventCount := eventCount c |}.

Definition setLastActivity (now : Z) (c : Connection) : Connection :=
  {| id := id c; readyState := readyState c; sentFrames := sentFrames c;
     ip := ip c; sessionHash := sessionHash c; connectedAt := connectedAt c;
     lastActivity := now; eventCount := eventCount c |}.

Definition setSessionHash (h : option string) (c : Connection) : Connection :=
  {| id := id c; readyState := readyState c; sentFrames := sentFrames c;
     ip := ip c; sessionHash := h; connectedAt := connectedAt c;
     lastActivity := lastActivity c; eventCount := eventCount c |}.

Definition countEvent (c : Connection) : Connection :=
  {| id := id c; readyState := readyState c; sentFrames := sentFrames c;
     ip := ip c; sessionHash := sessionHash c; connectedAt := connectedAt c;
     lastActivity := lastActivity c; eventCount := eventCount c + 1 |}.

(** The body of [wss.on('connection', ...)]. *)
Definition handleConnection (connectionId clientIp : string) (now : Z) (s : t) : t :=
  let connection :=
    {| id := connectionId; readyState := OPEN; sentFrames := [];
       ip := clientIp; sessionHash := None; connectedAt := now;
       lastActivity := now; eventCount := 0 |} in
  putConnection connectionId (sendToClient (FConnected connectionId now) connection) s.

(** [handleDisconnect(connectionId)] *)
Definition handleDisconnect (connectionId : string) (now : Z) (s : t) (w : World)
  : t * World :=
  let w1 :=
    match connections s !! connectionId with
    | Some c =>
        match sessionHash c with
        | Some h => setPg (Postgres.updateSessionStatus h false now (pg w)) w
        | None => w
        end
    | None => w
    end in
  (setConnections (delete connectionId (connections s)) s, w1).

(** The subscriber of [traffic:commands]. *)
Definition deliver (hash : string) (command : Command) (s : t) : t :=
  setConnections
    ((fun c => if bool_decide (sessionHash c = Some hash)
               then sendToClient (FCommand command) c else c)
       <$> connections s) s.

(** [message.sessionHash], when it is a non-empty string. *)
Definition sessionHashOf (message : JSValue) : option string :=
  match get_prop message "sessionHash" with
  | Some (JStr h) => if String.eqb h "" then None else Some h
  | _ => None
  end.

(** [calculateRiskScore(stats)] *)
Definition calculateRiskScore (stats : RateLimiter.Stats) : Z :=
  let eps := RateLimiter.eventsPerSecond stats in
  let rate :=
    if PrimFloat.ltb (js_number 10) eps then 40
    else if PrimFloat.ltb (js_number 5) eps then 20 else 0 in
  let count :=
    if 30 <? RateLimiter.stats_count stats then 30
    else if 10 <? RateLimiter.stats_count stats then 15 else 0 in
  Z.min 100 (rate + count).

(** [sendThrottleCommand(sessionHash, latency)]; the flag tells whether it
    returned without throwing. *)
Definition sendThrottleCommand (hash : string) (latency : Z) (w : World)
  : World * bool :=
  let '(cid, w1) := uuidv4 w in
  match Redis.publish hash (mkCommand (Some cid) SET_LATENCY (PLatency latency))
                      (redis w1) with
  | None => (w1, false)
  | Some r1 =>
      let w2 := setRedis r1 w1 in
      match Postgres.updateSessionMode hash Postgres.downspin latency (pg w2) with
      | None => (w2, false)
      | Some p1 => (setPg p1 w2, true)
      end
  end.

(** [handleHandshake(connection, message)]; the flag tells whether it
    returned without throwing.  Without a session hash the two store calls
    have no row to act on. *)
Definition handleHandshake (connection : Connection) (message : JSValue) (now : Z)
    (w : World) : World * bool :=
  match get_prop message "metadata" with
  | None | Some JUndefined | Some JNull =>
      (w, false)                         (* [metadata.userAgent] throws *)
  | Some _ =>
      match sessionHashOf message with
      | Some h =>
          let w1 := setPg (Postgres.upsertSession h (ip connection) now (pg w)) w in
          match Redis.trackOnlineSession h now (redis w1) with
          | Some r1 => (setRedis r1 w1, true)
          | None => (w1, false)
          end
      | None => (w, true)
      end
  end.

(** The loop of [handleBatchEvents]; the flag is [false] when [logEvent] or
    the reading of [event.timestamp] throws. *)
Fixpoint logEvents (events : list JSValue) (hash : option string) (clientIp : string)
    (now : Z) (c : ClickHouse.t) : ClickHouse.t * bool :=
  match events with
  | [] => (c, true)
  | event :: rest =>
      match get_prop event "timestamp" with
      | None => (c, false)
      | Some ts =>
          let enriched :=
            set_fields event
              [("sessionHash", match hash with Some h => JStr h | None => JUndefined end);
               ("ipAddress", JStr clientIp);
               ("timestamp", if truthy ts then ts else JNum now)] in
          match ClickHouse.logEvent enriched c with
          | None => (c, false)
          | Some c1 => logEvents rest hash clientIp now c1
          end
      end
  end.

(** [a || b] for session hashes. *)
Definition hash_or (a b : option string) : option string :=
  match a with Some _ => a | None => b end.

(** [handleBatchEvents(connection, message)] *)
Definition handleBatchEvents (s : t) (connection : Connection) (message : JSValue)
    (now : Z) (w : World) : World * bool :=
  match get_prop message "events" with
  | Some (JArr events) =>
      let hash := sessionHashOf message in
      let '(c1, fine) :=
        logEvents events (hash_or hash (sessionHash connection)) (ip connection)
                  now (clickhouse w) in
      let w1 := setClickhouse c1 w in
      if fine then
        match hash with
        | Some h =>
            let w2 :=
              setPg (Postgres.incrementEventCount h (Z.of_nat (length events)) now
                       (pg w1)) w1 in
            match RateLimiter.getViolationStats h now (rateLimiter s) with
            | Some stats =>
                let score := calculateRiskScore stats in
                (setPg (Postgres.updateRiskScore h score (80 <? score) (pg w2)) w2, true)
            | None => (w2, true)
            end
        | None => (w1, true)
        end
      else (w1, false)
  | _ => (w, true)
  end.

(** [handleEvent(connection, message)] *)
Definition handleEvent (connection : Connection) (message : JSValue) (now : Z)
    (w : World) : World * bool :=
  let hash := hash_or (sessionHashOf message) (sessionHash connection) in
  let '(c1, fine) :=
    logEvents [message] hash (ip connection) now (clickhouse w) in
  let w1 := setClickhouse c1 w in
  if fine then
    match hash with
    | Some h => (setPg (Postgres.incrementEventCount h 1 now (pg w1)) w1, true)
    | None => (w1, true)
    end
  else (w1, false).

(** [handleCommandAck(connection, message)] *)
Definition handleCommandAck (message : JSValue) (now : Z) (w : World) : World * bool :=
  match get_prop message "result" with
  | Some result =>
      match get_prop result "error" with
      | Some err =>
          let st := if truthy err then Postgres.failed else Postgres.acknowledged in
          let cid :=
            match get_prop message "commandId" with
            | Some (JNum n) => Some (Z.to_N n)
            | _ => None
            end in
          (setPg (Postgres.updateCommandStatus cid st now (pg w)) w, true)
      | None => (w, false)
      end
  | None => (w, false)
  end.

(** The [switch (message.type)]; the flag tells whether it returned without
    throwing. *)
Definition route (s : t) (connection : Connection) (message : JSValue) (now : Z)
    (w : World) : World * bool :=
  match get_prop message "type" with
  | Some (JStr ty) =>
      if String.eqb ty "handshake" then handleHandshake connection message now w
      else if String.eqb ty "batch" then handleBatchEvents s connection message now w
      else if String.eqb ty "interaction" || String.eqb ty "event"
      then handleEvent connection message now w
      else if String.eqb ty "pong" then (w, true)
      else if String.eqb ty "command_ack" then handleCommandAck message now w
      else (w, true)
  | _ => (w, true)
  end.

(** What [handleMessage] does once the limiter has refused a frame for
    [rate_limit]. *)
Definition autoThrottle (s : t) (connection : Connection) (hash : option string)
    (now : Z) (w : World) : World :=
  match hash with
  | None => w
  | Some h =>
      match RateLimiter.getViolationStats h now (rateLimiter s) with
      | Some stats =>
          if RateLimiter.shouldThrottle stats then
            match sendThrottleCommand h (RateLimiter.stats_throttleLatency stats) w with
            | (w1, false) => w1
            | (w1, true) =>
                let w2 :=
                  setClickhouse
                    (ClickHouse.logRateViolation
                       (ClickHouse.mkRateViolation (Some h) (ip connection)
                          (RateLimiter.eventsPerSecond stats)
                          (RateLimiter.maxEventsPerSecond
                             (RateLimiter.options (rateLimiter s))))
                       (clickhouse w1)) w1 in
                setPg (Postgres.incrementViolations h (pg w2)) w2
            end
          else w
      | None => w
      end
  end.

Definition banNotice : Command :=
  mkCommand None TERMINATE (PReason "Too many requests - temporarily banned").

(** [handleMessage(connectionId, data)]; [data] is what [JSON.parse] makes
    of the frame, [None] when it throws. *)
Definition handleMessage (connectionId : string) (data : option JSValue) (now : Z)
    (s : t) (w : World) : t * World :=
  match connections s !! connectionId with
  | None => (s, w)
  | Some connection =>
      match data with
      | None => (s, w)
      | Some message =>
          let c1 := setLastActivity now connection in
          match get_prop message "sessionHash" with
          | None => (putConnection connectionId c1 s, w)
          | Some _ =>
              let hash := sessionHashOf message in
              let c2 :=
                match sessionHash c1, hash with
                | None, Some h => setSessionHash (Some h) c1
                | _, _ => c1
                end in
              let '(result, limiter) :=
                RateLimiter.isAllowed (default connectionId hash) 1 now
                                      (rateLimiter s) in
              let s1 := setRateLimiter limiter s in
              match result with
              | RateLimiter.DenyBanned _ =>
                  (putConnection connectionId
                     (close (sendToClient (FCommand banNotice) c2)) s1, w)
              | RateLimiter.DenyRateLimit _ _ =>
                  (putConnection connectionId c2 s1, autoThrottle s1 c2 hash now w)
              | RateLimiter.Allow _ =>
                  let '(w1, fine) := route s1 c2 message now w in
                  (putConnection connectionId (if fine then countEvent c2 else c2) s1, w1)
              end
          end
      end
  end.


End WebSocketServer.

(** ** The beacon route ([POST /beacon] of the main server)

    The handler answers and hands the events to [setImmediate]; the
    callback runs once the handler has returned. *)

Module Beacon.

Inductive Step : Type :=
| Replied (status : Z)                   (* [reply.code(status).send()] *)
| LogEventCall (event : JSValue).        (* [this.clickhouse.logEvent(event)] *)

(** The handler: the status it replies with and what it defers. *)
Definition handler (body : JSValue) : Z * option JSValue :=
  if truthy body then
    match get_prop body "events" with
    | Some events => if truthy events then (204, Some events) else (204, None)
    | None => (204, None)                (* the [catch] *)
    end
  else (204, None).

(** The loop of the deferred callback: it stops at the first [logEvent]
    that throws. *)
Fixpoint logAll (events : list JSValue) (c : ClickHouse.t)
  : list Step * ClickHouse.t :=
  match events with
  | [] => ([], c)
  | event :: rest =>
      match ClickHouse.logEvent event c with
      | None => ([LogEventCall event], c)
      | Some c1 =>
          let '(steps, c2) := logAll rest c1 in (LogEventCall event :: steps, c2)
      end
  end.

(** The deferred callback; a value that is not iterable ends it at once. *)
Definition deferred (events : JSValue) (c : ClickHouse.t) : list Step * ClickHouse.t :=
  match iterate events with
  | Some items => logAll items c
  | None => ([], c)
  end.

(** One request: the handler runs, then the callbacks it deferred. *)
Definition post (body : JSValue) (c : ClickHouse.t) : list Step * ClickHouse.t :=
  let '(status, later) := handler body in
  match later with
  | Some events =>
      let '(steps, c1) := deferred events c in (Replied status :: steps, c1)
  | None => ([Replied status], c)
  end.

End Beacon.

(** ** Notions used by the properties *)

(** A bucket as the limiter keeps them. *)
Definition bucket_wf (b : TokenBucket.t) : Prop :=
  0 <= TokenBucket.tokens b <= TokenBucket.capacity b ∧
  0 <= TokenBucket.refillRate b ∧ 0 < TokenBucket.refillInterval b.

(** The tokens a bucket can still hand out up to time [T]: those it holds
    and those of the intervals still to elapse, but never more than a full
    bucket and the refills of [c] intervals. *)
Definition potential (T c : Z) (b : TokenBucket.t) : Z :=
  Z.min (TokenBucket.tokens b
         + Z.max 0 (js_floor_div (T - TokenBucket.lastRefill b)
                                 (TokenBucket.refillInterval b))
           * TokenBucket.refillRate b)
        (TokenBucket.capacity b + c * TokenBucket.refillRate b).

Definition same_params (b' b : TokenBucket.t) : Prop :=
  TokenBucket.capacity b' = TokenBucket.capacity b ∧
  TokenBucket.refillRate b' = TokenBucket.refillRate b ∧
  TokenBucket.refillInterval b' = TokenBucket.refillInterval b.

(** A limiter whose options are sensible and whose buckets are all
    well-formed: what the constructor gives and admission keeps. *)
Definition limiter_wf (r : RateLimiter.t) : Prop :=
  0 <= RateLimiter.capacity (RateLimiter.options r) ∧
  0 <= RateLimiter.refillRate (RateLimiter.options r) ∧
  0 < RateLimiter.refillInterval (RateLimiter.options r) ∧
  ∀ k b, RateLimiter.buckets r !! k = Some b → bucket_wf b.

(** States and requests the properties are exercised on. *)

Definition r_at_threshold : RateLimiter.t :=
  RateLimiter.setViolations {[ "s1" := RateLimiter.mkViolation 49 1000 5000 ]}
    (RateLimiter.new RateLimiter.serverOptions).

Definition r_banned : RateLimiter.t :=
  RateLimiter.setBanned
    {[ "s1" := RateLimiter.mkBan 1000 300000 "excessive_rate_limit_violations" ]}
    (RateLimiter.new RateLimiter.serverOptions).

Definition r_one_bucket : RateLimiter.t :=
  RateLimiter.setBuckets {[ "s1" := TokenBucket.mk 20 0 5 1000 0 ]}
    (RateLimiter.new RateLimiter.serverOptions).

(** A world whose stores answer and hold one session, ["abcd"]. *)
Definition w_abcd : World :=
  {| pg := Postgres.mk {[ "abcd" := Postgres.newSession "8.8.8.8" 0 ]} [] true;
     redis := Redis.mk [] ∅ true;
     clickhouse := ClickHouse.mk [] [] [] false 100 true;
     next_uuid := 0%N |}.

(** A request on session ["abcd"] with the given key and no body. *)
Definition request_abcd (key : option string) : Admin.Request :=
  Admin.mkRequest key None "10.0.0.1" "abcd" None None None.

(** A handshake frame for session ["abcd"], as [JSON.parse] yields it. *)
Definition handshake_abcd : JSValue :=
  JObj [("type", JStr "handshake"); ("sessionHash", JStr "abcd");
        ("metadata", JObj [("userAgent", JStr "agent")])].


(** ** Further notions, and more of the code *)

(** The bucket the limiter consults for a key: the one it holds, or the one
    it creates. *)
Definition bucketFor (k : string) (now : Z) (r : RateLimiter.t) : TokenBucket.t :=
  let o := RateLimiter.options r in
  default (TokenBucket.new (RateLimiter.capacity o) (RateLimiter.refillRate o)
                           (RateLimiter.refillInterval o) now)
          (RateLimiter.buckets r !! k).

#[global] Instance ReadyState_eq_dec : EqDecision WebSocketServer.ReadyState.
Proof. solve_decision. Defined.

(** The mode invariant of the session store: a session in mode [upspin] has
    no latency. *)
Definition row_ok (row : Postgres.Session) : Prop :=
  Postgres.mode row = Postgres.upspin → Postgres.current_latency_ms row = 0.

Definition mode_invariant (p : Postgres.t) : Prop :=
  ∀ h row, Postgres.sessions p !! h = Some row → row_ok row.

(** ** The IPv4 conversion of the event store

    [ipToInt] of the ClickHouse service, on a string argument.  The regular
    expression [^(\d{1,3})\.(\d{1,3})\.(\d{1,3})\.(\d{1,3})$] has no
    alternative and digits are not dots, so it matches exactly the strings
    whose four dot-separated pieces are one to three decimal digits each, and
    its groups are those pieces. *)

Module IpToInt.
Import Stdlib.Strings.Ascii.

Definition is_digit (a : ascii) : bool :=
  let n := N_of_ascii a in ((48 <=? n) && (n <=? 57))%N.

Definition digit (a : ascii) : Z := Z.of_N (N_of_ascii a) - 48.

(** [Number(s)] on a string of decimal digits *)
Definition Number (s : list ascii) : Z :=
  fold_left (fun acc a => 10 * acc + digit a) s 0.

Definition is_dot (a : ascii) : bool := Ascii.eqb a ".".

(** the pieces of a string between its dots *)
Fixpoint split_dots (s : list ascii) : list (list ascii) :=
  match s with
  | [] => [[]]
  | a :: rest =>
      if is_dot a then [] :: split_dots rest
      else match split_dots rest with
           | [] => [[a]]
           | p :: ps => (a :: p) :: ps
           end
  end.

(** [\d{1,3}] *)
Definition octet_text (p : list ascii) : bool :=
  (1 <=? length p)%nat && (length p <=? 3)%nat && forallb is_digit p.

(** [ip.match(ipv4Regex)]: the four groups, or [None] for [null]. *)
Definition ipv4Regex (ip : string) : option (list (list ascii)) :=
  match split_dots (list_ascii_of_string ip) with
  | [_; _; _; _] as groups => if forallb octet_text groups then Some groups else None
  | _ => None
  end.

(** The 32-bit integer operators of JavaScript. *)
Definition ToInt32 (z : Z) : Z := (z + 2 ^ 31) mod 2 ^ 32 - 2 ^ 31.
Definition ToUint32 (z : Z) : Z := z mod 2 ^ 32.
Definition js_shl (a n : Z) : Z := ToInt32 (Z.shiftl (ToInt32 a) (ToUint32 n mod 32)).
Definition js_or (a b : Z) : Z := ToInt32 (Z.lor (ToInt32 a) (ToInt32 b)).
Definition js_ushr (a n : Z) : Z := Z.shiftr (ToUint32 a) (ToUint32 n mod 32).

Definition ipToInt (ip : string) : Z :=
  if String.eqb ip "" || String.eqb ip "0.0.0.0" then 0
  else
    match ipv4Regex ip with
    | None => 0
    | Some groups =>
        let parts := map Number groups in
        if existsb (fun p => (p <? 0) || (255 <? p)) parts then 0
        else
          match parts with
          | [p0; p1; p2; p3] =>
              js_ushr (js_or (js_or (js_or (js_shl p0 24) (js_shl p1 16)) (js_shl p2 8)) p3) 0
          | _ => 0
          end
    end.

(** The dotted decimal writing of four numbers. *)
Definition dotted (a b c d : Z) : string :=
  pretty a +:+ "." +:+ pretty b +:+ "." +:+ pretty c +:+ "." +:+ pretty d.

(** What the decimal writing of an octet has to satisfy to be read back. *)
Definition octet_check (a : Z) : bool :=
  let p := list_ascii_of_string (pretty a) in
  octet_text p && (Number p =? a) && forallb (fun c => negb (is_dot c)) p.

End IpToInt.

(** ** The clock reads of one admission call

    [isAllowed] and the methods it calls read [Date.now()] each on their
    own.  Here every read has a value of its own; [RateLimiter.isAllowed] is
    the call in which they all return the same value. *)

Module Clocked.
Import RateLimiter.

Record Reads : Type := mkReads {
  atIsBanned : Z;                        (* in [isBanned] *)
  atBanTimeRemaining : Z;                (* in [getBanTimeRemaining] *)
  atNewBucket : Z;                       (* in the constructor of [TokenBucket] *)
  atTryConsume : Z;                      (* in [refill], called by [tryConsume] *)
  atFirstViolation : Z;                  (* in [recordViolation], a new record *)
  atLastViolation : Z;                   (* in [recordViolation] *)
  atBan : Z;                             (* in [ban] *)
  atGetTokens : Z                        (* in [refill], called by [getTokens] *)
}.

(** All reads return [now]. *)
Definition same (now : Z) : Reads := mkReads now now now now now now now now.

(** [recordViolation(sessionId)]: the [lastViolation] of a new record is
    overwritten at once. *)
Definition recordViolation (sessionId : string) (c : Reads) (r : t) : Violation * t :=
  let v0 :=
    match violations r !! sessionId with
    | Some v => v
    | None => {| count := 0; firstViolation := atFirstViolation c;
                 lastViolation := atFirstViolation c |}
    end in
  let v := {| count := count v0 + 1; firstViolation := firstViolation v0;
              lastViolation := atLastViolation c |} in
  let r1 := setViolations (<[sessionId := v]> (violations r)) r in
  if banThreshold (options r) <=? count v then
    (v, ban sessionId (banDuration (options r)) (atBan c) r1)
  else (v, r1).

(** [isAllowed(sessionId, cost)] *)
Definition isAllowed (sessionId : string) (cost : Z) (c : Reads) (r : t)
  : Admission * t :=
  let '(isb, r1) := isBanned sessionId (atIsBanned c) r in
  if isb then
    (DenyBanned (getBanTimeRemaining sessionId (atBanTimeRemaining c) r1), r1)
  else
    let '(bucket, r2) := getBucket sessionId (atNewBucket c) r1 in
    let '(ok, bucket1) := TokenBucket.tryConsume cost (atTryConsume c) bucket in
    let r3 := setBuckets (<[sessionId := bucket1]> (buckets r2)) r2 in
    if ok then
      let '(n, bucket2) := TokenBucket.getTokens (atGetTokens c) bucket1 in
      (Allow n, setBuckets (<[sessionId := bucket2]> (buckets r3)) r3)
    else
      let '(_, r4) := recordViolation sessionId c r3 in
      let '(n, bucket2) := TokenBucket.getTokens (atGetTokens c) bucket1 in
      let r5 := setBuckets (<[sessionId := bucket2]> (buckets r4)) r4 in
      (DenyRateLimit n (calculateRetryAfter r5), r5).

End Clocked.

(** A frame whose [sessionHash] is a string, or is falsy.  The connection
    handler is modelled for these frames: a [sessionHash] that is truthy and
    not a string (a number, [true], an array, an object) is used by the code
    as it is, as the key of the limiter and as the hash the connection is
    bound to. *)
Definition plainHash (message : JSValue) : bool :=
  match get_prop message "sessionHash" with
  | Some (JStr _) | None => true
  | Some v => negb (truthy v)
  end.



(** A value that is neither an array nor an object. *)
Definition primitive (v : JSValue) : bool :=
  match v with
  | JArr _ | JObj _ => false
  | _ => true
  end.

(** An event none of whose fields is an array or an object.  After its
    check of [sessionHash], [formatEventRow] applies [String], [parseInt],
    [parseFloat] and [new Date] to the fields of the event; these throw on
    some objects and never on a primitive. *)
Definition flatEvent (event : JSValue) : bool :=
  forallb (fun kv : string * JSValue => primitive kv.2) (own_fields event).



(** ** The HTTP front of the server ([setupMiddleware], [setupRoutes])

    [setupMiddleware] registers [@fastify/rate-limit] with [max: 100] and
    [timeWindow: '1 minute'] before any route, so its [onRequest] hook runs
    on every request, keyed by the address of the client, before Fastify
    parses a payload and before the hooks and the handler of the route.  A
    request it refuses is answered 429; a payload the content-type parser
    refuses is answered by the parser. *)

Module Http.

(** The store of the rate limit: the requests counted for each address in
    its current window.  It keeps the 10000 addresses seen last
    ([cache: 10000]); an address it has dropped starts a new window. *)
Definition Hits : Type := gmap string Z.

Definition max : Z := 100.

(** The [onRequest] hook of the rate limit: the request is counted, and
    [false] tells that it is answered 429. *)
Definition onRequest (ip : string) (hits : Hits) : bool * Hits :=
  let n := default 0 (hits !! ip) + 1 in
  (n <=? max, <[ip := n]> hits).

(** The window of an address ends, or the store drops the address. *)
Definition windowEnds (ip : string) (hits : Hits) : Hits := delete ip hits.

(** Why the content-type parser refuses a payload. *)
Inductive ParseError : Type :=
| InvalidJson | EmptyJsonBody | UnsupportedMediaType | BodyTooLarge.

Definition statusOf (e : ParseError) : Z :=
  match e with
  | InvalidJson | EmptyJsonBody => 400
  | UnsupportedMediaType => 415
  | BodyTooLarge => 413
  end.

Definition tooManyRequests : Admin.Response :=
  Admin.mkResponse 429 (Admin.RError "Too Many Requests").

Definition parseFailure (e : ParseError) : Admin.Response :=
  Admin.mkResponse (statusOf e) (Admin.RError "Bad Request").

(** The routes whose requests carry a payload. *)
Definition hasBody (route : Admin.Route) : bool :=
  match route with
  | Admin.PostUpspin | Admin.PostDownspin | Admin.PostTerminate
  | Admin.PostNotify | Admin.PostRedirect | Admin.PostBatchAction => true
  | _ => false
  end.

(** A request to an admin route as it reaches the server: [payloadError]
    is [Some] when the parser refuses its payload, and [body request] is
    what the parser yields otherwise. *)
Record AdminRequest : Type := mkAdminRequest {
  request : Admin.Request;
  payloadError : option ParseError
}.

(** One request to an admin route: the rate limit, the parser, then the
    hook and the handler of the route. *)
Definition admin (env : option string) (route : Admin.Route) (hr : AdminRequest)
    (now : Z) (st : Hits * World) : Admin.Response * (Hits * World) :=
  let '(pass, hits1) := onRequest (Admin.ip (request hr)) st.1 in
  if pass then
    match (if hasBody route then payloadError hr else None) with
    | Some e => (parseFailure e, (hits1, st.2))
    | None =>
        let '(reply, w1) := Admin.serve env route (request hr) now st.2 in
        (reply, (hits1, w1))
    end
  else (tooManyRequests, (hits1, st.2)).

(** The payload of a request to [POST /beacon]. *)
Inductive Payload : Type :=
| Parsed (body : JSValue)                (* [request.body]; [JUndefined] without payload *)
| Unparsable (e : ParseError).


(** A request with the given key from address [10.0.0.1], its payload
    accepted. *)
Definition keyed (key : option string) : AdminRequest :=
  mkAdminRequest (request_abcd key) None.

(** The state after [n] requests to the upspin route with a wrong key, all
    within one window. *)
Definition afterWrongKeys (n : nat) : Hits * World :=
  Nat.iter n (fun st => (admin None Admin.PostUpspin (keyed (Some "guess")) 0 st).2)
           (∅, w_abcd).


End Http.

(** ** Column types of the session store ([schema.sql])

    What PostgreSQL requires of a value bound to a column of the type; a
    statement one of whose values fails its column fails as a whole.  [TEXT]
    and [INET] are sufficient conditions: [INET] holds of the IPv4 addresses
    in dotted decimal writing (the type takes more: IPv6 addresses, a
    netmask). *)

Module Schema.
Import Stdlib.Strings.Ascii.

(** Text, as a sufficient condition: ASCII characters other than NUL
    (PostgreSQL refuses NUL in text and, in [JSONB], an unpaired surrogate). *)
Definition TEXT (s : string) : bool :=
  forallb (fun a => let n := N_of_ascii a in ((1 <=? n) && (n <=? 127))%N)
          (list_ascii_of_string s).

Definition VARCHAR (n : Z) (s : string) : bool :=
  TEXT s && (Z.of_nat (String.length s) <=? n).

Definition INTEGER (z : Z) : bool := (-2147483648 <=? z) && (z <=? 2147483647).

Definition INET (s : string) : bool :=
  match IpToInt.ipv4Regex s with
  | Some [a; b; c; d] =>
      let n := IpToInt.Number in
      forallb (fun p => n p <=? 255) [a; b; c; d]
      && String.eqb s (IpToInt.dotted (n a) (n b) (n c) (n d))
  | _ => false
  end.

(** [v || null] bound to a column: a falsy value is stored as [NULL]. *)
Definition nullable (check : JSValue → bool) (v : JSValue) : bool :=
  negb (truthy v) || check v.

Definition text (check : string → bool) (v : JSValue) : bool :=
  match v with JStr s => check s | _ => false end.

Definition number (check : Z → bool) (v : JSValue) : bool :=
  match v with JNum n => check n | _ => false end.

(** The values [handleHandshake] takes from [message.metadata] for the
    columns [user_agent], [screen_width], [screen_height], [timezone],
    [network_type] and [battery_level] (a [SMALLINT] checked to lie between
    0 and 100). *)
Definition metadata (md : JSValue) : bool :=
  match md with
  | JObj fields =>
      nullable (text TEXT) (assoc "userAgent" fields)
      && nullable (number INTEGER) (assoc "screenWidth" fields)
      && nullable (number INTEGER) (assoc "screenHeight" fields)
      && nullable (text (VARCHAR 50)) (assoc "timezone" fields)
      && nullable (text (VARCHAR 20)) (assoc "networkType" fields)
      && nullable (number (fun n => (0 <=? n) && (n <=? 100)))
                  (assoc "batteryLevel" fields)
  | JUndefined | JNull => false
  | _ => true
  end.

(** The values a command route writes besides the mode: the session hash
    it selects by, and the [admin_id] ([VARCHAR(100)]) and [admin_ip]
    ([INET]) of the audit row. *)
Definition audit (request : Admin.Request) : bool :=
  TEXT (Admin.sessionHash request)
  && VARCHAR 100 (Admin.str_or (Admin.x_admin_id request) "api")
  && INET (Admin.ip request).

End Schema.

(** * Properties *)

(** ** Rate limiter: bans *)

Section RateLimiterBans.
Import RateLimiter.
Implicit Types (r : RateLimiter.t) (k key : string) (now cost : Z).

Lemma isBanned_live r k now b :
  bannedSessions r !! k = Some b →
  now - bannedAt b < duration b →
  isBanned k now r = (true, r).
Proof.
  intros Hb Hlt. unfold isBanned. rewrite Hb.
  destruct (Z.leb_spec (duration b) (now - bannedAt b)); [lia | reflexivity].
Qed.

Lemma isBanned_true_iff r k now :
  (isBanned k now r).1 = true ↔
  ∃ b, bannedSessions r !! k = Some b ∧ now - bannedAt b < duration b.
Proof.
  unfold isBanned. destruct (bannedSessions r !! k) as [b|] eqn:Hb; simpl.
  - destruct (Z.leb_spec (duration b) (now - bannedAt b)); simpl.
    + split; [discriminate |]. intros (b' & Heq & Hlt). simplify_eq. lia.
    + split; [eauto | reflexivity].
  - split; [discriminate |]. intros (b' & Heq & _). discriminate.
Qed.

(** What the ban check may do to the limiter. *)
Lemma isBanned_state r k now :
  options (isBanned k now r).2 = options r ∧
  buckets (isBanned k now r).2 = buckets r ∧
  violations (isBanned k now r).2 = violations r ∧
  (bannedSessions (isBanned k now r).2 = bannedSessions r ∨
   ∃ b, bannedSessions r !! k = Some b ∧ duration b <= now - bannedAt b ∧
        (isBanned k now r).1 = false ∧
        bannedSessions (isBanned k now r).2 = delete k (bannedSessions r)).
Proof.
  unfold isBanned. destruct (bannedSessions r !! k) as [b|] eqn:Hb; simpl.
  - destruct (Z.leb_spec (duration b) (now - bannedAt b)); simpl; eauto 10.
  - eauto.
Qed.

Lemma recordViolation_bans r k now :
  bannedSessions (recordViolation k now r).2 = bannedSessions r ∨
  bannedSessions (recordViolation k now r).2 =
    <[k := mkBan now (banDuration (options r)) "excessive_rate_limit_violations"]>
      (bannedSessions r).
Proof.
  unfold recordViolation. case_match; simpl; auto.
Qed.

(** Admission never removes a ban that has not run out. *)
Lemma isAllowed_keeps_live_ban r k cost now k' b :
  bannedSessions r !! k' = Some b →
  bannedSessions (isAllowed k cost now r).2 !! k' = None →
  duration b <= now - bannedAt b.
Proof.
  intros Hb Hnone.
  destruct (isBanned_state r k now) as (_ & _ & _ & Hbans).
  unfold isAllowed in Hnone.
  destruct (isBanned k now r) as [isb r1] eqn:Hib; simpl in *.
  assert (Hr1 : bannedSessions r1 !! k' = None → duration b <= now - bannedAt b).
  { intros Hn. destruct Hbans as [Heq | (b0 & Hb0 & Hexp & _ & Heq)].
    - rewrite Heq in Hn. congruence.
    - rewrite Heq in Hn. destruct (decide (k = k')) as [->|Hne].
      + congruence.
      + rewrite lookup_delete_ne in Hn by done. congruence. }
  destruct isb; [auto |].
  destruct (getBucket k now r1) as [bucket r2] eqn:Hgb.
  assert (Hr2 : bannedSessions r2 = bannedSessions r1).
  { unfold getBucket in Hgb.
    destruct (buckets r1 !! k); simplify_eq; reflexivity. }
  destruct (TokenBucket.tryConsume cost now bucket) as [ok bucket1].
  destruct ok; simpl in Hnone.
  - apply Hr1. rewrite <- Hr2. exact Hnone.
  - match type of Hnone with
    | context [recordViolation k now ?s] =>
        destruct (recordViolation_bans s k now) as [Heq | Heq];
        destruct (recordViolation k now s) as [v r4]
    end; simpl in *; rewrite Heq in Hnone; simpl in Hnone.
    + apply Hr1. rewrite <- Hr2. exact Hnone.
    + destruct (decide (k = k')) as [->|Hne].
      * rewrite lookup_insert_eq in Hnone. discriminate.
      * rewrite lookup_insert_ne in Hnone by done.
        apply Hr1. rewrite <- Hr2. exact Hnone.
Qed.

Lemma cleanup_keeps_live_ban r now k b :
  bannedSessions r !! k = Some b →
  bannedSessions (cleanup now r) !! k = None →
  duration b <= now - bannedAt b.
Proof.
  intros Hb Hnone. simpl in Hnone.
  apply map_lookup_filter_None in Hnone as [Hn | Hn]; [congruence |].
  specialize (Hn b Hb). simpl in Hn. lia.
Qed.

Lemma step_keeps_live_ban o now r k b :
  bannedSessions r !! k = Some b →
  bannedSessions (step o now r) !! k = None →
  duration b <= now - bannedAt b.
Proof.
  intros Hb Hnone. destruct o as [k0 c| k0 | k0 | k0 |]; simpl in Hnone.
  - eapply isAllowed_keeps_live_ban; eauto.
  - destruct (isBanned_state r k0 now) as (_ & _ & _ & [Heq | (b0 & Hb0 & Hexp & _ & Heq)]);
      rewrite Heq in Hnone; [congruence |].
    destruct (decide (k0 = k)) as [->|Hne]; [congruence |].
    rewrite lookup_delete_ne in Hnone by done. congruence.
  - congruence.
  - congruence.
  - eapply cleanup_keeps_live_ban; eauto.
Qed.

End RateLimiterBans.

Section RateLimiterBanTheorems.
Import RateLimiter.
Implicit Types (r : RateLimiter.t) (k key : string) (now cost : Z).

Lemma getBucket_frame r k now :
  options (getBucket k now r).2 = options r ∧
  violations (getBucket k now r).2 = violations r ∧
  bannedSessions (getBucket k now r).2 = bannedSessions r ∧
  buckets (getBucket k now r).2 !! k = Some (getBucket k now r).1 ∧
  ∀ k', k ≠ k' → buckets (getBucket k now r).2 !! k' = buckets r !! k'.
Proof.
  unfold getBucket. destruct (buckets r !! k) eqn:Hk; simpl.
  - auto.
  - rewrite lookup_insert_eq. repeat split; auto.
    intros k' Hne. by rewrite lookup_insert_ne.
Qed.

(** Admission on one key leaves the ban records of the other keys alone. *)
Lemma isAllowed_bans_other r k cost now k' :
  k ≠ k' →
  bannedSessions (isAllowed k cost now r).2 !! k' = bannedSessions r !! k'.
Proof.
  intros Hne. unfold isAllowed.
  destruct (isBanned_state r k now) as (_ & _ & _ & Hbans).
  destruct (isBanned k now r) as [isb r1]; simpl in *.
  assert (Hr1 : bannedSessions r1 !! k' = bannedSessions r !! k').
  { destruct Hbans as [-> | (b0 & _ & _ & _ & ->)]; [done |].
    by rewrite lookup_delete_ne. }
  destruct isb; [exact Hr1 |].
  destruct (getBucket_frame r1 k now) as (_ & _ & Hgb & _).
  destruct (getBucket k now r1) as [bucket r2]; simpl in Hgb.
  destruct (TokenBucket.tryConsume cost now bucket) as [ok bucket1].
  destruct ok; simpl.
  - by rewrite Hgb.
  - match goal with
    | |- context [recordViolation k now ?s] =>
        destruct (recordViolation_bans s k now) as [Heq | Heq];
        destruct (recordViolation k now s) as [v r4]
    end; simpl in *; rewrite Heq; simpl.
    + by rewrite Hgb.
    + rewrite lookup_insert_ne by done. by rewrite Hgb.
Qed.

Lemma step_preserves_live_ban o now r k b :
  bannedSessions r !! k = Some b →
  now - bannedAt b < duration b →
  bannedSessions (step o now r) !! k = Some b.
Proof.
  intros Hb Hlive. destruct o as [k0 c| k0 | k0 | k0 |]; simpl; try done.
  - destruct (decide (k0 = k)) as [->|Hne].
    + unfold isAllowed. by rewrite (isBanned_live r k now b Hb Hlive).
    + by rewrite isAllowed_bans_other.
  - destruct (decide (k0 = k)) as [->|Hne].
    + by rewrite (isBanned_live r k now b Hb Hlive).
    + destruct (isBanned_state r k0 now) as (_ & _ & _ & [-> | (b0 & _ & _ & _ & ->)]);
        [done |]. by rewrite lookup_delete_ne.
  - apply map_lookup_filter_Some. split; [done |]. simpl. lia.
Qed.

Lemma run_preserves_live_ban ops r k b :
  bannedSessions r !! k = Some b →
  Forall (fun o : Op * Z => o.2 - bannedAt b < duration b) ops →
  bannedSessions (run ops r) !! k = Some b.
Proof.
  revert r. induction ops as [|[o now] ops IH]; intros r Hb Hall; simpl; [done |].
  inversion Hall as [|? ? Hnow Hrest]; subst. simpl in Hnow.
  apply IH; [| done]. by apply step_preserves_live_ban.
Qed.

Lemma recordViolation_creates_ban r k now :
  banThreshold (options r) <= count (recordViolation k now r).1 →
  bannedSessions (recordViolation k now r).2 !! k =
    Some (mkBan now (banDuration (options r)) "excessive_rate_limit_violations").
Proof.
  unfold recordViolation.
  destruct (violations r !! k) as [v|]; simpl;
    (match goal with
     | |- context [?a <=? ?b] => destruct (Z.leb_spec a b)
     end); simpl; intros Hc; try lia; by rewrite lookup_insert_eq.
Qed.

(** C5.  Ban monotonicity.  When [recordViolation] brings the violation
    count of a key to [banThreshold] or above at time [tb], every admission
    call on that key whose clock reads less than [tb + banDuration] answers
    [banned], whatever admission calls, ban checks, statistics queries,
    resets and cleanups (on any key, so also resets that erase the
    violation count) ran in between within that window.  And the ban check
    answers [true] exactly when a ban record exists with
    [now - bannedAt < duration]. *)
Theorem ban_monotonicity r key tb ops cost now :
  banThreshold (options r) <= count (recordViolation key tb r).1 →
  Forall (fun o : Op * Z => o.2 - tb < banDuration (options r)) ops →
  now - tb < banDuration (options r) →
  (isAllowed key cost now (run ops (recordViolation key tb r).2)).1
    = DenyBanned (Z.max 0 (banDuration (options r) - (now - tb)))
  ∧ (∀ r' k n,
       (isBanned k n r').1 = true ↔
       ∃ b, bannedSessions r' !! k = Some b ∧ n - bannedAt b < duration b).
Proof.
  intros Hcount Hops Hnow. split; [| intros; apply isBanned_true_iff].
  pose proof (recordViolation_creates_ban r key tb Hcount) as Hban.
  pose proof (run_preserves_live_ban ops _ key _ Hban Hops) as Hrun.
  unfold isAllowed.
  rewrite (isBanned_live _ key now _ Hrun) by (simpl; lia).
  unfold getBanTimeRemaining. rewrite Hrun. reflexivity.
Qed.

Lemma ban_monotonicity_witness :
  (isAllowed "s1" 1 200000
     (run [(OpReset "s1", 7000); (OpIsAllowed "s1" 1, 8000); (OpCleanup, 9000)]
          (recordViolation "s1" 6000 r_at_threshold).2)).1
  = DenyBanned 106000.
Proof.
  refine (proj1 (ban_monotonicity r_at_threshold "s1" 6000
            [(OpReset "s1", 7000); (OpIsAllowed "s1" 1, 8000); (OpCleanup, 9000)]
            1 200000 _ _ _)).
  - vm_compute. discriminate.
  - repeat constructor; vm_compute; reflexivity.
  - vm_compute. reflexivity.
Defined.

(** C9.  For a key that is currently banned, [isAllowed] answers [banned]
    and returns the limiter as it was: no bucket is created or refilled, no
    violation is recorded.  In general the ban check leaves options, buckets
    and violations alone, and the one change it can make to the ban records
    is to delete the record of the checked key when it has run out (in
    which case it answers [false]). *)
Theorem banned_admission_is_pure r key cost now :
  (isBanned key now r).1 = true →
  (∃ retryAfter, isAllowed key cost now r = (DenyBanned retryAfter, r))
  ∧ buckets (isAllowed key cost now r).2 = buckets r
  ∧ violations (isAllowed key cost now r).2 = violations r
  ∧ (∀ r' k n,
       options (isBanned k n r').2 = options r' ∧
       buckets (isBanned k n r').2 = buckets r' ∧
       violations (isBanned k n r').2 = violations r' ∧
       (bannedSessions (isBanned k n r').2 = bannedSessions r' ∨
        ∃ b, bannedSessions r' !! k = Some b ∧ duration b <= n - bannedAt b ∧
             (isBanned k n r').1 = false ∧
             bannedSessions (isBanned k n r').2 = delete k (bannedSessions r'))).
Proof.
  intros Hb. apply isBanned_true_iff in Hb as (b & Hb & Hlive).
  assert (Heq : isAllowed key cost now r =
                (DenyBanned (getBanTimeRemaining key now r), r)).
  { unfold isAllowed. by rewrite (isBanned_live r key now b Hb Hlive). }
  rewrite Heq. simpl. repeat split; eauto using isBanned_state.
  all: apply isBanned_state.
Qed.

Lemma banned_admission_is_pure_witness :
  ∃ retryAfter, isAllowed "s1" 1 2000 r_banned = (DenyBanned retryAfter, r_banned).
Proof.
  refine (proj1 (banned_admission_is_pure r_banned "s1" 1 2000 _)).
  vm_compute. reflexivity.
Defined.

(** C10.  [reset] deletes the bucket and the violation record of the key
    and leaves every ban record as it is, so the ban check answers after it
    as before; [unban] deletes the ban record and the violation record of
    the key and leaves the buckets; and no admission call, ban check,
    statistics query, reset or cleanup removes a ban record that has not
    run out. *)
Theorem reset_keeps_ban :
  ∀ r key,
    buckets (reset key r) = delete key (buckets r)
    ∧ violations (reset key r) = delete key (violations r)
    ∧ bannedSessions (reset key r) = bannedSessions r
    ∧ (∀ k now, (isBanned k now (reset key r)).1 = (isBanned k now r).1)
    ∧ bannedSessions (unban key r) = delete key (bannedSessions r)
    ∧ violations (unban key r) = delete key (violations r)
    ∧ buckets (unban key r) = buckets r
    ∧ (∀ o now k b,
         bannedSessions r !! k = Some b →
         bannedSessions (step o now r) !! k = None →
         duration b <= now - bannedAt b).
Proof.
  intros r key. split_and!; try reflexivity.
  - intros k now. unfold isBanned. simpl.
    destruct (bannedSessions r !! k) as [b|]; [| reflexivity].
    by destruct (duration b <=? now - bannedAt b).
  - intros. eapply step_keeps_live_ban; eauto.
Qed.

End RateLimiterBanTheorems.

(** ** Token bucket: conservation *)

Section TokenConservation.
Import TokenBucket.
Implicit Types (b : TokenBucket.t) (now dt T : Z).

(** A bucket is created well-formed when the options are sensible, and
    [refill] and [tryConsume] keep it so (below). *)
Lemma new_bucket_wf cap rate interval now :
  0 <= cap → 0 <= rate → 0 < interval →
  bucket_wf (TokenBucket.new cap rate interval now).
Proof. unfold bucket_wf. simpl. lia. Qed.

Lemma refill_params now b : same_params (refill now b) b.
Proof. unfold same_params, refill. by case_match. Qed.

Lemma refill_wf now b : bucket_wf b → bucket_wf (refill now b).
Proof.
  unfold bucket_wf, refill, intervalsElapsed, js_floor_div.
  intros (Ht & Hr & Hi).
  destruct (Z.ltb_spec 0 ((now - lastRefill b) / refillInterval b)); simpl; [| done].
  split_and!; lia || nia.
Qed.

Lemma refill_formula now b :
  bucket_wf b → lastRefill b <= now →
  tokens (refill now b) =
    Z.min (capacity b)
          (tokens b + js_floor_div (now - lastRefill b) (refillInterval b) * refillRate b).
Proof.
  unfold bucket_wf, refill, intervalsElapsed, js_floor_div.
  intros (Ht & Hr & Hi) Hnow.
  destruct (Z.ltb_spec 0 ((now - lastRefill b) / refillInterval b)); simpl; [done |].
  assert (0 <= (now - lastRefill b) / refillInterval b)
    by (apply Z.div_pos; lia).
  replace ((now - lastRefill b) / refillInterval b) with 0 by lia. lia.
Qed.

Lemma ceil_div_nonneg dt i : 0 <= dt → 0 < i → 0 <= js_ceil_div dt i.
Proof.
  intros Hdt Hi. unfold js_ceil_div.
  assert ((- dt) / i <= 0); [| lia].
  Z.div_mod_to_equations. nia.
Qed.

Lemma floor_add_le_ceil a d i :
  0 < i → js_floor_div (a + d) i <= js_floor_div a i + js_ceil_div d i.
Proof.
  intros Hi. unfold js_floor_div, js_ceil_div.
  rewrite <- Z.div_add by lia.
  apply Z.div_le_mono; [lia |].
  pose proof (Z.div_mod (- d) i ltac:(lia)).
  pose proof (Z.mod_pos_bound (- d) i Hi). lia.
Qed.

(** After the refill of an observation at [now] in the window, what the
    bucket can hand out is what [potential] says without the cap. *)
Lemma refill_potential t0 dt now b :
  bucket_wf b → 0 <= dt → t0 <= now <= t0 + dt →
  let c := js_ceil_div dt (refillInterval b) in
  let b' := refill now b in
  tokens b'
    + Z.max 0 (js_floor_div (t0 + dt - lastRefill b') (refillInterval b')) * refillRate b'
    <= potential (t0 + dt) c b.
Proof.
  intros (Ht & Hr & Hi) Hdt Hnow c b'.
  pose proof (ceil_div_nonneg dt (refillInterval b) Hdt Hi) as Hc.
  subst c b'. unfold potential, refill, intervalsElapsed, js_floor_div, js_ceil_div in *.
  set (i := refillInterval b) in *. set (rate := refillRate b) in *.
  set (L := lastRefill b) in *.
  destruct (Z.ltb_spec 0 ((now - L) / i)) as [Hk | Hk]; simpl; fold i rate L.
  - (* the refill happens: lastRefill becomes now *)
    assert (Hrest : (t0 + dt - now) / i <= - (- dt / i)).
    { Z.div_mod_to_equations. nia. }
    assert (Hsplit : (t0 + dt - now) / i + (now - L) / i <= (t0 + dt - L) / i).
    { Z.div_mod_to_equations. nia. }
    assert (0 <= (t0 + dt - now) / i) by (apply Z.div_pos; lia).
    rewrite (Z.max_r 0 ((t0 + dt - now) / i)) by lia.
    rewrite (Z.max_r 0 ((t0 + dt - L) / i)) by lia.
    apply Z.min_glb; nia.
  - (* no interval has elapsed: the bucket is unchanged *)
    assert (Hrest : (t0 + dt - L) / i <= - (- dt / i)).
    { Z.div_mod_to_equations. nia. }
    apply Z.min_glb; [lia |].
    destruct (Z.max_spec 0 ((t0 + dt - L) / i)) as [[_ ->] | [_ ->]]; nia.
Qed.

Lemma potential_refill t0 dt now b :
  bucket_wf b → 0 <= dt → t0 <= now <= t0 + dt →
  let c := js_ceil_div dt (refillInterval b) in
  potential (t0 + dt) c (refill now b) <= potential (t0 + dt) c b.
Proof.
  intros Hwf Hdt Hnow c.
  pose proof (refill_potential t0 dt now b Hwf Hdt Hnow) as H. simpl in H.
  destruct (refill_params now b) as (Hc & Hr & Hi).
  unfold potential at 1. rewrite Hi in *. fold c in H. lia.
Qed.

Lemma potential_nonneg T c b : bucket_wf b → 0 <= c → 0 <= potential T c b.
Proof.
  intros (Ht & Hr & Hi) Hc. unfold potential. apply Z.min_glb; nia.
Qed.

(** One [tryConsume(1)] in the window: an admitted call uses up one unit of
    potential, a refused one none. *)
Lemma tryConsume_potential t0 dt now b :
  bucket_wf b → 0 <= dt → t0 <= now <= t0 + dt →
  let c := js_ceil_div dt (refillInterval b) in
  let '(ok, b') := tryConsume 1 now b in
  bucket_wf b' ∧ same_params b' b ∧
  potential (t0 + dt) c b' + (if ok then 1 else 0) <= potential (t0 + dt) c b.
Proof.
  intros Hwf Hdt Hnow c. unfold tryConsume.
  pose proof (refill_wf now b Hwf) as Hwf1.
  pose proof (refill_params now b) as Hp.
  pose proof (refill_potential t0 dt now b Hwf Hdt Hnow) as Hpot. simpl in Hpot.
  fold c in Hpot.
  set (b1 := refill now b) in *.
  destruct (Z.leb_spec 1 (tokens b1)) as [Hok | Hno].
  - split_and!.
    + destruct Hwf1 as (? & ? & ?). unfold bucket_wf. simpl. lia.
    + exact Hp.
    + unfold potential at 1. simpl.
      destruct Hp as (_ & _ & Hi). rewrite Hi in *.
      etransitivity; [| exact Hpot].
      etransitivity; [apply Z.add_le_mono_r, Z.le_min_l |]. lia.
  - split_and!; [done | done |].
    unfold potential at 1.
    destruct Hp as (_ & _ & Hi). rewrite Hi in *.
    etransitivity; [| exact Hpot].
    etransitivity; [apply Z.add_le_mono_r, Z.le_min_l |]. lia.
Qed.

(** The potential at the start of the window is within the claimed bound. *)
Lemma potential_initial t0 dt b :
  bucket_wf b → 0 <= dt →
  let c := js_ceil_div dt (refillInterval b) in
  potential (t0 + dt) c b <= (getTokens t0 b).1 + c * refillRate b.
Proof.
  intros (Ht & Hr & Hi) Hdt c.
  pose proof (ceil_div_nonneg dt (refillInterval b) Hdt Hi) as Hc. fold c in Hc.
  subst c. unfold potential, getTokens, refill, intervalsElapsed,
    js_floor_div, js_ceil_div in *. simpl.
  set (i := refillInterval b) in *. set (rate := refillRate b) in *.
  set (L := lastRefill b) in *.
  destruct (Z.ltb_spec 0 ((t0 - L) / i)) as [Hk | Hk]; simpl.
  - assert (Hsplit : (t0 + dt - L) / i <= (t0 - L) / i + - (- dt / i)).
    { replace (t0 + dt - L) with (t0 - L + dt) by lia.
      by apply floor_add_le_ceil. }
    assert (0 <= t0 - L) by (Z.div_mod_to_equations; nia).
    assert (0 <= (t0 + dt - L) / i) by (apply Z.div_pos; lia).
    rewrite (Z.max_r 0 ((t0 + dt - L) / i)) by lia.
    destruct (Z.min_spec (capacity b) (tokens b + (t0 - L) / i * rate))
      as [[_ ->] | [_ ->]].
    + etransitivity; [apply Z.le_min_r |]. lia.
    + etransitivity; [apply Z.le_min_l |]. nia.
  - assert (Hrest : (t0 + dt - L) / i <= - (- dt / i)).
    { Z.div_mod_to_equations. nia. }
    etransitivity; [apply Z.le_min_l |].
    destruct (Z.max_spec 0 ((t0 + dt - L) / i)) as [[_ ->] | [_ ->]]; nia.
Qed.

End TokenConservation.

Section LimiterConservation.
Import RateLimiter.
Implicit Types (r : RateLimiter.t) (k key : string) (now cost : Z).

Lemma recordViolation_buckets r k now :
  buckets (recordViolation k now r).2 = buckets r.
Proof. unfold recordViolation. by case_match. Qed.

(** Admission on one key leaves the buckets of the other keys alone. *)
Lemma isAllowed_buckets_other r k cost now k' :
  k ≠ k' → buckets (isAllowed k cost now r).2 !! k' = buckets r !! k'.
Proof.
  intros Hne. unfold isAllowed.
  destruct (isBanned_state r k now) as (_ & Hbk & _ & _).
  destruct (isBanned k now r) as [isb r1]; simpl in *.
  destruct isb; [simpl; by rewrite Hbk |].
  destruct (getBucket_frame r1 k now) as (_ & _ & _ & _ & Hother).
  destruct (getBucket k now r1) as [bucket r2]; simpl in Hother.
  destruct (TokenBucket.tryConsume cost now bucket) as [ok bucket1].
  destruct ok; simpl.
  - rewrite !lookup_insert_ne by done. rewrite Hother by done. by rewrite Hbk.
  - match goal with
    | |- context [recordViolation k now ?s] =>
        pose proof (recordViolation_buckets s k now) as Heq;
        destruct (recordViolation k now s) as [v r4]
    end; simpl in *. rewrite Heq. simpl.
    rewrite !lookup_insert_ne by done. rewrite Hother by done. by rewrite Hbk.
Qed.

(** Admission on a key that has a bucket and is not banned: the bucket is
    the one [tryConsume] leaves, observed once more by [getTokens]. *)
Lemma isAllowed_key_bucket r k cost now b :
  buckets r !! k = Some b →
  (isBanned k now r).1 = false →
  buckets (isAllowed k cost now r).2 !! k
    = Some (TokenBucket.refill now (TokenBucket.tryConsume cost now b).2)
  ∧ allowed (isAllowed k cost now r).1 = (TokenBucket.tryConsume cost now b).1.
Proof.
  intros Hb Hnb. unfold isAllowed.
  destruct (isBanned_state r k now) as (_ & Hbk & _ & _).
  destruct (isBanned k now r) as [isb r1]; simpl in *. subst isb.
  unfold getBucket. rewrite Hbk, Hb.
  destruct (TokenBucket.tryConsume cost now b) as [ok bucket1].
  destruct ok; simpl.
  - by rewrite lookup_insert_eq.
  - match goal with
    | |- context [recordViolation k now ?s] =>
        pose proof (recordViolation_buckets s k now) as Heq;
        destruct (recordViolation k now s) as [v r4]
    end; simpl in *. by rewrite lookup_insert_eq.
Qed.

Lemma isAllowed_banned r k cost now :
  (isBanned k now r).1 = true →
  (isAllowed k cost now r).2 = r ∧ allowed (isAllowed k cost now r).1 = false.
Proof.
  intros Hb. apply isBanned_true_iff in Hb as (b & Hb & Hlive).
  unfold isAllowed. by rewrite (isBanned_live r k now b Hb Hlive).
Qed.

(** One admission call in the window, seen from the bucket of [key]. *)
Lemma isAllowed_potential r key b t0 dt k now :
  buckets r !! key = Some b →
  bucket_wf b → 0 <= dt → t0 <= now <= t0 + dt →
  let c := js_ceil_div dt (TokenBucket.refillInterval b) in
  ∃ b', buckets (isAllowed k 1 now r).2 !! key = Some b' ∧
        bucket_wf b' ∧ same_params b' b ∧
        potential (t0 + dt) c b'
          + (if allowed (isAllowed k 1 now r).1 && bool_decide (k = key)
             then 1 else 0)
        <= potential (t0 + dt) c b.
Proof.
  intros Hb Hwf Hdt Hnow c.
  destruct (decide (k = key)) as [->|Hne].
  - rewrite bool_decide_eq_true_2 by done. rewrite andb_true_r.
    destruct ((isBanned key now r).1) eqn:Hib.
    + destruct (isAllowed_banned r key 1 now Hib) as [-> ->].
      exists b. split_and!; [done | done | by unfold same_params | lia].
    + destruct (isAllowed_key_bucket r key 1 now b Hb Hib) as [-> ->].
      pose proof (tryConsume_potential t0 dt now b Hwf Hdt Hnow) as Htc.
      simpl in Htc. fold c in Htc.
      destruct (TokenBucket.tryConsume 1 now b) as [ok b1]; simpl.
      destruct Htc as (Hwf1 & Hp1 & Hpot1).
      exists (TokenBucket.refill now b1). split_and!.
      * done.
      * by apply refill_wf.
      * destruct (refill_params now b1) as (? & ? & ?).
        destruct Hp1 as (? & ? & ?). unfold same_params. split_and!; congruence.
      * pose proof (potential_refill t0 dt now b1 Hwf1 Hdt Hnow) as Hr.
        simpl in Hr. destruct Hp1 as (_ & _ & Hi). rewrite Hi in Hr.
        fold c in Hr. lia.
  - rewrite bool_decide_eq_false_2 by done. rewrite andb_false_r.
    exists b. rewrite isAllowed_buckets_other by done.
    split_and!; [done | done | by unfold same_params | lia].
Qed.

Lemma admitted_le_potential calls r key b t0 dt :
  buckets r !! key = Some b →
  bucket_wf b → 0 <= dt →
  Forall (fun c : Call => t0 <= c.2 <= t0 + dt) calls →
  admitted key calls r
    <= potential (t0 + dt) (js_ceil_div dt (TokenBucket.refillInterval b)) b.
Proof.
  revert r b. induction calls as [|[k now] calls IH]; intros r b Hb Hwf Hdt Hall.
  - simpl. apply potential_nonneg; [done |].
    destruct Hwf as (_ & _ & Hi). by apply ceil_div_nonneg.
  - inversion Hall as [|? ? Hnow Hrest]; subst. simpl in Hnow.
    cbn [admitted].
    destruct (isAllowed_potential r key b t0 dt k now Hb Hwf Hdt Hnow)
      as (b' & Hb' & Hwf' & Hp' & Hpot).
    destruct (isAllowed k 1 now r) as [a r1]; simpl in *.
    specialize (IH r1 b' Hb' Hwf' Hdt Hrest).
    destruct Hp' as (_ & _ & Hi). rewrite Hi in IH. lia.
Qed.

Lemma tryConsume_wf cost now b :
  bucket_wf b → 0 <= cost → bucket_wf (TokenBucket.tryConsume cost now b).2.
Proof.
  intros Hwf Hcost. unfold TokenBucket.tryConsume.
  pose proof (refill_wf now b Hwf) as (Ht & Hr & Hi).
  destruct (Z.leb_spec cost (TokenBucket.tokens (TokenBucket.refill now b))); simpl.
  - unfold bucket_wf. simpl. lia.
  - done.
Qed.

Lemma recordViolation_options r k now :
  options (recordViolation k now r).2 = options r.
Proof. unfold recordViolation. by case_match. Qed.

(** The bucket admission leaves for its key when the key is not banned: the
    existing or the freshly created one, after [tryConsume] and [getTokens]. *)
Lemma isAllowed_bucket_of_key r k cost now :
  (isBanned k now r).1 = false →
  options (isAllowed k cost now r).2 = options r
  ∧ buckets (isAllowed k cost now r).2 !! k
    = Some (TokenBucket.refill now
              (TokenBucket.tryConsume cost now
                 (default (TokenBucket.new (capacity (options r))
                             (refillRate (options r)) (refillInterval (options r)) now)
                          (buckets r !! k))).2).
Proof.
  intros Hnb. unfold isAllowed.
  destruct (isBanned_state r k now) as (Hopt & Hbk & _ & _).
  destruct (isBanned k now r) as [isb r1]; simpl in *. subst isb.
  unfold getBucket. rewrite Hbk, Hopt.
  destruct (buckets r !! k) as [b|]; simpl.
  - destruct (TokenBucket.tryConsume cost now b) as [ok bucket1].
    destruct ok; simpl; [by rewrite lookup_insert_eq |].
    match goal with
    | |- context [recordViolation k now ?s] =>
        pose proof (recordViolation_options s k now) as Ho;
        destruct (recordViolation k now s) as [v r4]
    end; simpl in *. split; [congruence | by rewrite lookup_insert_eq].
  - destruct (TokenBucket.tryConsume cost now _) as [ok bucket1].
    destruct ok; simpl; [by rewrite lookup_insert_eq |].
    match goal with
    | |- context [recordViolation k now ?s] =>
        pose proof (recordViolation_options s k now) as Ho;
        destruct (recordViolation k now s) as [v r4]
    end; simpl in *. split; [congruence | by rewrite lookup_insert_eq].
Qed.

(** The server's limiter starts well-formed, and admission at a
    non-negative cost keeps it so: the hypothesis of the conservation
    theorem holds of every bucket the server ever has. *)
Lemma new_limiter_wf : limiter_wf (new serverOptions).
Proof.
  unfold limiter_wf. simpl. split_and!; try lia.
  intros k b Hb. by rewrite lookup_empty in Hb.
Qed.

Lemma isAllowed_limiter_wf r k cost now :
  limiter_wf r → 0 <= cost → limiter_wf (isAllowed k cost now r).2.
Proof.
  intros (Hc & Hr & Hi & Hb) Hcost.
  destruct ((isBanned k now r).1) eqn:Hib.
  - destruct (isAllowed_banned r k cost now Hib) as [-> _]. by unfold limiter_wf.
  - destruct (isAllowed_bucket_of_key r k cost now Hib) as [Hopt Hkey].
    unfold limiter_wf. rewrite Hopt. split_and!; try done.
    intros k' b' Hb'. destruct (decide (k = k')) as [<-|Hne].
    + rewrite Hkey in Hb'. injection Hb' as <-.
      apply refill_wf, tryConsume_wf; [| done].
      destruct (buckets r !! k) as [b|] eqn:Hk; simpl; [by eapply Hb |].
      by apply new_bucket_wf.
    + rewrite isAllowed_buckets_other in Hb' by done. by eapply Hb.
Qed.

(** C3.  Token conservation.  Take a bucket of the limiter (tokens within
    [0, capacity], non-negative refill rate, positive interval) and a window
    of [dt] milliseconds starting at [t0].  Of any admission calls of cost 1
    whose clocks read within the window, on whatever keys, the number of
    those on the bucket's key that are allowed is at most the token count
    [getTokens()] reports at [t0] plus [ceil(dt / refillInterval) * refillRate].
    And an observation of the bucket at a time [now] not before its last
    refill leaves
    [tokens = min(capacity, tokens_prev + floor((now - lastRefill) / interval) * refillRate)],
    within [0, capacity]. *)
Theorem token_conservation r key b t0 dt calls :
  buckets r !! key = Some b →
  bucket_wf b →
  0 <= dt →
  Forall (fun c : Call => t0 <= c.2 <= t0 + dt) calls →
  admitted key calls r
    <= (TokenBucket.getTokens t0 b).1
       + js_ceil_div dt (TokenBucket.refillInterval b) * TokenBucket.refillRate b
  ∧ (∀ now, TokenBucket.lastRefill b <= now →
       TokenBucket.tokens (TokenBucket.getTokens now b).2
         = Z.min (TokenBucket.capacity b)
                 (TokenBucket.tokens b
                  + js_floor_div (now - TokenBucket.lastRefill b)
                                 (TokenBucket.refillInterval b)
                    * TokenBucket.refillRate b)
       ∧ 0 <= TokenBucket.tokens (TokenBucket.getTokens now b).2
           <= TokenBucket.capacity b).
Proof.
  intros Hb Hwf Hdt Hall. split.
  - etransitivity; [by eapply admitted_le_potential |].
    by apply potential_initial.
  - intros now Hnow. simpl. split; [by apply refill_formula |].
    destruct (refill_wf now b Hwf) as (Ht & _).
    destruct (refill_params now b) as (Hc & _). lia.
Qed.

Lemma token_conservation_witness :
  admitted "s1" [("s1", 10000); ("s2", 10000); ("s1", 10001); ("s1", 10002)]
           r_one_bucket
    <= (TokenBucket.getTokens 10000 (TokenBucket.mk 20 0 5 1000 0)).1
       + js_ceil_div 2 1000 * 5.
Proof.
  refine (proj1 (token_conservation r_one_bucket "s1" (TokenBucket.mk 20 0 5 1000 0)
            10000 2 [("s1", 10000); ("s2", 10000); ("s1", 10001); ("s1", 10002)]
            _ _ _ _)).
  - reflexivity.
  - unfold bucket_wf. simpl. lia.
  - lia.
  - repeat constructor; simpl; lia.
Defined.

End LimiterConservation.

(** ** Rate limiter: defaults and violation statistics *)

Section RateLimiterDefaults.
Import RateLimiter.

(** C8, as stated, fails: a limiter constructed without options has a
    bucket capacity of 10, not 20. *)
Lemma default_capacity_is_not_20 :
  capacity (options (new noOptions)) ≠ 20.
Proof. vm_compute. discriminate. Qed.

(** C8, amended.  A limiter constructed without a [capacity] option has a
    bucket capacity of 10, whatever its other options; without any option
    its refill rate is 5 tokens per interval of 1000 ms, its ban threshold 50
    and its ban duration 300000 ms.  The capacity of 20 is the one the
    WebSocket server passes to the constructor, with the same refill rate,
    interval, ban threshold and ban duration. *)
Theorem default_options :
  (∀ rate interval eps auto latency threshold ban,
     capacity (options (new (mkRaw None rate interval eps auto latency threshold ban)))
       = 10)
  ∧ options (new noOptions) = mkOptions 10 5 1000 5 true 2000 50 300000
  ∧ options (new serverOptions) = mkOptions 20 5 1000 5 true 2000 50 300000
  ∧ (∀ r key now,
       buckets r !! key = None →
       (getBucket key now r).1
         = TokenBucket.mk (capacity (options r)) (capacity (options r))
                          (refillRate (options r)) (refillInterval (options r)) now).
Proof.
  split_and!; try reflexivity.
  intros r key now Hnone. unfold getBucket. by rewrite Hnone.
Qed.

(** C6, as stated, fails: queried in the instant of the first violation,
    the code divides the count 1 by the elapsed time 0, which is [+Infinity],
    and signals a throttle; [count / max(1, now - firstViolationAt)] is 1,
    which is not above the threshold of 5. *)
Lemma violation_stats_same_instant :
  ∃ st, getViolationStats "s1" 6000
          (recordViolation "s1" 6000 (new serverOptions)).2 = Some st
        ∧ stats_count st = 1
        ∧ eventsPerSecond st = infinity
        ∧ shouldThrottle st = true
        ∧ PrimFloat.ltb (js_number 5)
            (PrimFloat.div (js_number 1) (js_number (Z.max 1 (6000 - 6000)))) = false.
Proof.
  eexists. split; [vm_compute; reflexivity |].
  split_and!; vm_compute; reflexivity.
Qed.

(** C6, amended.  For every key with a recorded violation,
    [getViolationStats] returns the count, [eventsPerSecond = (count /
    (now - firstViolation)) * 1000] computed in binary64 with the elapsed
    time as it is (not clamped from below), [shouldThrottle =
    eventsPerSecond > maxEventsPerSecond], and the throttle latency of the
    options; it changes nothing. *)
Theorem violation_stats r key now v :
  violations r !! key = Some v →
  getViolationStats key now r
    = Some {| stats_count := count v;
              eventsPerSecond :=
                PrimFloat.mul
                  (PrimFloat.div (js_number (count v))
                                 (js_number (now - firstViolation v)))
                  (js_number 1000);
              shouldThrottle :=
                PrimFloat.ltb
                  (js_number (maxEventsPerSecond (options r)))
                  (PrimFloat.mul
                     (PrimFloat.div (js_number (count v))
                                    (js_number (now - firstViolation v)))
                     (js_number 1000));
              stats_throttleLatency := throttleLatency (options r) |}.
Proof. intros Hv. unfold getViolationStats. by rewrite Hv. Qed.

Lemma violation_stats_witness :
  getViolationStats "s1" 7000 r_at_threshold
    = Some {| stats_count := 49;
              eventsPerSecond :=
                PrimFloat.mul (PrimFloat.div (js_number 49) (js_number (7000 - 1000)))
                              (js_number 1000);
              shouldThrottle :=
                PrimFloat.ltb (js_number 5)
                  (PrimFloat.mul
                     (PrimFloat.div (js_number 49) (js_number (7000 - 1000)))
                     (js_number 1000));
              stats_throttleLatency := 2000 |}.
Proof.
  apply (violation_stats r_at_threshold "s1" 7000 (mkViolation 49 1000 5000)).
  reflexivity.
Defined.

End RateLimiterDefaults.

(** ** Admin routes *)

Section AdminRoutes.
Import Admin.

(** C1, as stated, fails: the 101st request of a minute from one address is
    answered 429 by the rate limit, wrong key or not. *)
Lemma wrong_key_answered_429 :
  x_api_key (Http.request (Http.keyed (Some "guess"))) ≠ Some (validKey None)
  ∧ status (Http.admin None PostUpspin (Http.keyed (Some "guess")) 0
              (Http.afterWrongKeys 99)).1 = 401
  ∧ status (Http.admin None PostUpspin (Http.keyed (Some "guess")) 0
              (Http.afterWrongKeys 100)).1 = 429.
Proof. split_and!; [vm_compute; discriminate | vm_compute; reflexivity ..]. Qed.

(** C1, amended.  A request to an admin route whose [X-API-Key] header is
    absent or is not the configured secret never reaches the handler of the
    route: the session store, the event log, the command bus and the id
    supply are as before.  It is answered [401 {error: "Unauthorized"}]
    whenever it gets as far as the [preHandler] hook of the routes; before
    that, the rate limit answers it 429 when the address is over its limit,
    and the parser answers it 400, 413 or 415 when it refuses the payload. *)
Theorem auth_totality env route hr now hits w :
  x_api_key (Http.request hr) ≠ Some (validKey env) →
  let r := Http.admin env route hr now (hits, w) in
  let pass := (Http.onRequest (ip (Http.request hr)) hits).1 in
  let refused := if Http.hasBody route then Http.payloadError hr else None in
  r.2.2 = w
  ∧ (pass = false → r.1 = Http.tooManyRequests)
  ∧ (pass = true → ∀ e, refused = Some e → r.1 = Http.parseFailure e)
  ∧ (pass = true → refused = None → r.1 = mkResponse 401 (RError "Unauthorized"))
  ∧ status r.1 ∈ [401; 429; 400; 413; 415].
Proof.
  intros Hkey r pass refused. subst r pass refused. unfold Http.admin. cbn [fst snd].
  destruct (Http.onRequest _ hits) as [pass hits1]. cbn [fst].
  destruct pass.
  - destruct (if Http.hasBody route then Http.payloadError hr else None) as [e|].
    + cbn [fst snd]. split_and!; try done.
      * intros _ e' [= <-]. reflexivity.
      * destruct e; cbn; set_solver.
    + unfold serve, preHandler. rewrite bool_decide_eq_false_2 by done.
      cbn [fst snd]. split_and!; try done. cbn. set_solver.
  - cbn [fst snd]. split_and!; try done. cbn. set_solver.
Qed.

Lemma auth_totality_witness :
  (Http.admin None PostUpspin (Http.keyed (Some "guess")) 0 (∅, w_abcd)).1
  = mkResponse 401 (RError "Unauthorized").
Proof.
  refine (proj1 (proj2 (proj2 (proj2
            (auth_totality None PostUpspin (Http.keyed (Some "guess")) 0 ∅ w_abcd _))))
          _ _).
  - vm_compute. discriminate.
  - reflexivity.
  - reflexivity.
Defined.

(** With the right key the handler runs. *)
Lemma serve_authorized env route request now w :
  x_api_key request = Some (validKey env) →
  serve env route request now w = handler route request now w.
Proof.
  intros Hkey. unfold serve, preHandler. by rewrite bool_decide_eq_true_2.
Qed.






End AdminRoutes.

(** ** Connection handler *)

Section Connections.
Import WebSocketServer.


Lemma handleMessage_others connectionId data now s w other :
  other ≠ connectionId →
  connections (handleMessage connectionId data now s w).1 !! other
    = connections s !! other.
Proof.
  intros Hne. unfold handleMessage.
  destruct (connections s !! connectionId) as [c|]; [| done].
  destruct data as [message|]; [| done].
  destruct (get_prop message "sessionHash") as [v|];
    [| simpl; by rewrite lookup_insert_ne].
  destruct (RateLimiter.isAllowed _ 1 now (rateLimiter s)) as [result limiter].
  destruct result.
  - destruct (route _ _ message now w) as [w1 fine]. simpl.
    by rewrite lookup_insert_ne.
  - simpl. by rewrite lookup_insert_ne.
  - simpl. by rewrite lookup_insert_ne.
Qed.






End Connections.

(** ** Beacon route *)

Section BeaconRoute.
Import Beacon.









End BeaconRoute.

(** * Further properties of the code *)

(** ** Token bucket *)

Section TokenBucketMore.
Import TokenBucket.
Implicit Types (b : TokenBucket.t) (now cost : Z).

Lemma refill_refill now b : refill now (refill now b) = refill now b.
Proof.
  unfold refill. destruct (0 <? intervalsElapsed now b) eqn:E.
  - unfold intervalsElapsed, js_floor_div. cbn [lastRefill refillInterval].
    by rewrite Z.sub_diag, Zdiv_0_l.
  - by rewrite E.
Qed.

(** An observation repeated at the same clock value changes nothing more,
    and an observation never takes tokens away nor overfills the bucket. *)
Theorem refill_idempotent_monotone now b :
  bucket_wf b →
  refill now (refill now b) = refill now b
  ∧ tokens b <= tokens (refill now b) <= capacity b.
Proof.
  intros (Ht & Hr & Hi). unfold refill, intervalsElapsed, js_floor_div.
  destruct (Z.ltb_spec 0 ((now - lastRefill b) / refillInterval b)) as [Hk | Hk].
  - cbn [lastRefill refillInterval tokens capacity]. rewrite Z.sub_diag, Z.div_0_l by lia.
    cbn. split; [reflexivity | nia].
  - destruct (Z.ltb_spec 0 ((now - lastRefill b) / refillInterval b)); [lia |].
    split; [reflexivity | lia].
Qed.

Lemma refill_idempotent_monotone_witness :
  refill 5000 (refill 5000 (mk 20 3 5 1000 0)) = refill 5000 (mk 20 3 5 1000 0).
Proof.
  refine (proj1 (refill_idempotent_monotone 5000 (mk 20 3 5 1000 0) _)).
  unfold bucket_wf. simpl. lia.
Defined.

(** A bucket left alone for [ceil((capacity - tokens) / refillRate)]
    intervals is full at the next observation. *)
Theorem refill_to_capacity now b :
  bucket_wf b → 0 < refillRate b →
  js_ceil_div (capacity b - tokens b) (refillRate b) * refillInterval b
    <= now - lastRefill b →
  (getTokens now b).1 = capacity b.
Proof.
  intros (Ht & Hr & Hi) Hrate Hidle.
  unfold getTokens, refill, intervalsElapsed, js_floor_div, js_ceil_div in *. cbn [fst].
  set (need := - (- (capacity b - tokens b) / refillRate b)) in *.
  assert (Hneed : capacity b - tokens b <= need * refillRate b).
  { subst need. pose proof (Z.div_mod (- (capacity b - tokens b)) (refillRate b) ltac:(lia)).
    pose proof (Z.mod_pos_bound (- (capacity b - tokens b)) (refillRate b) Hrate). lia. }
  assert (Hneed0 : 0 <= need).
  { subst need. assert (- (capacity b - tokens b) / refillRate b <= 0); [| lia].
    apply Z.div_le_upper_bound; lia. }
  assert (Hk : need <= (now - lastRefill b) / refillInterval b).
  { apply Z.div_le_lower_bound; lia. }
  destruct (Z.ltb_spec 0 ((now - lastRefill b) / refillInterval b)) as [Hpos | Hzero];
    cbn [tokens].
  - apply Z.min_l. nia.
  - nia.
Qed.

Lemma refill_to_capacity_witness :
  (getTokens 4000 (mk 20 3 5 1000 0)).1 = 20.
Proof.
  apply (refill_to_capacity 4000 (mk 20 3 5 1000 0)).
  - unfold bucket_wf. simpl. lia.
  - simpl. lia.
  - vm_compute. discriminate.
Defined.

Lemma tryConsume_over_capacity cost now b :
  bucket_wf b → capacity b < cost → (tryConsume cost now b).1 = false.
Proof.
  intros Hwf Hcost. unfold tryConsume.
  pose proof (refill_wf now b Hwf) as (Ht & _).
  destruct (refill_params now b) as (Hc & _).
  destruct (Z.leb_spec cost (tokens (refill now b))); [lia | done].
Qed.

Lemma refill_setTokens n now b :
  refill now (setTokens n (refill now b)) = setTokens n (refill now b).
Proof.
  unfold refill. destruct (0 <? intervalsElapsed now b) eqn:E.
  - unfold intervalsElapsed, js_floor_div.
    cbn [setTokens lastRefill refillInterval].
    by rewrite Z.sub_diag, Zdiv_0_l.
  - unfold intervalsElapsed in *. cbn [setTokens lastRefill refillInterval].
    by rewrite E.
Qed.

(** What [tryConsume] followed by [getTokens] at the same clock value
    reports: the observed count less the cost when it succeeds, the observed
    count when it fails. *)
Lemma tryConsume_then_getTokens cost now b :
  tokens (refill now (tryConsume cost now b).2)
    = if (tryConsume cost now b).1 then (getTokens now b).1 - cost
      else (getTokens now b).1.
Proof.
  unfold tryConsume, getTokens. cbn [fst].
  destruct (cost <=? tokens (refill now b)); cbn [fst snd].
  - by rewrite refill_setTokens.
  - by rewrite refill_refill.
Qed.

End TokenBucketMore.

(** ** Rate limiter: admission outcomes *)

Section LimiterMore.
Import RateLimiter.
Implicit Types (r : RateLimiter.t) (k key : string) (now cost : Z).

Lemma recordViolation_violations r k now :
  violations (recordViolation k now r).2
    = <[k := (recordViolation k now r).1]> (violations r).
Proof. unfold recordViolation. by case_match. Qed.

Lemma recordViolation_record r k now :
  (recordViolation k now r).1
    = match violations r !! k with
      | Some v => mkViolation (count v + 1) (firstViolation v) now
      | None => mkViolation 1 now now
      end.
Proof. unfold recordViolation. destruct (violations r !! k); by case_match. Qed.

Lemma recordViolation_bans_eq r k now :
  bannedSessions (recordViolation k now r).2
    = (if banThreshold (options r) <=? count (recordViolation k now r).1
       then <[k := mkBan now (banDuration (options r))
                         "excessive_rate_limit_violations"]> (bannedSessions r)
       else bannedSessions r).
Proof.
  unfold recordViolation.
  destruct (violations r !! k); simpl;
    destruct (_ <=? _) eqn:E; simpl; rewrite ?E; reflexivity.
Qed.

(** What admission returns and leaves, for a key that is not banned, in
    terms of what [tryConsume] says of the key's bucket. *)
Lemma isAllowed_outcome r k cost now :
  (isBanned k now r).1 = false →
  let r1 := (isBanned k now r).2 in
  let tc := TokenBucket.tryConsume cost now (bucketFor k now r) in
  if tc.1 then
    (isAllowed k cost now r).1 = Allow (TokenBucket.tokens (TokenBucket.refill now tc.2))
    ∧ violations (isAllowed k cost now r).2 = violations r
    ∧ bannedSessions (isAllowed k cost now r).2 = bannedSessions r1
  else
    (isAllowed k cost now r).1
      = DenyRateLimit (TokenBucket.tokens (TokenBucket.refill now tc.2))
                      (calculateRetryAfter r)
    ∧ violations (isAllowed k cost now r).2
      = <[k := (recordViolation k now r).1]> (violations r)
    ∧ bannedSessions (isAllowed k cost now r).2
      = (if banThreshold (options r) <=? count (recordViolation k now r).1
         then <[k := mkBan now (banDuration (options r))
                           "excessive_rate_limit_violations"]> (bannedSessions r1)
         else bannedSessions r1).
Proof.
  intros Hnb. cbn zeta. unfold isAllowed, bucketFor.
  destruct (isBanned_state r k now) as (Hopt & Hbk & Hviol & _).
  destruct (isBanned k now r) as [isb r1]; simpl in *. subst isb.
  unfold getBucket. rewrite Hbk, Hopt.
  assert (Hrv : ∀ s, options s = options r → violations s = violations r →
                     (recordViolation k now s).1 = (recordViolation k now r).1
                     ∧ options (recordViolation k now s).2 = options r
                     ∧ violations (recordViolation k now s).2
                       = <[k := (recordViolation k now r).1]> (violations r)
                     ∧ bannedSessions (recordViolation k now s).2
                       = (if banThreshold (options r)
                             <=? count (recordViolation k now r).1
                          then <[k := mkBan now (banDuration (options r))
                                        "excessive_rate_limit_violations"]>
                                 (bannedSessions s)
                          else bannedSessions s)).
  { intros s Hso Hsv.
    assert (H1 : (recordViolation k now s).1 = (recordViolation k now r).1).
    { rewrite !recordViolation_record. by rewrite Hsv. }
    split_and!; [done | | |].
    - by rewrite recordViolation_options.
    - by rewrite recordViolation_violations, H1, Hsv.
    - by rewrite recordViolation_bans_eq, H1, Hso. }
  destruct (buckets r !! k) as [b|]; cbn -[recordViolation];
    destruct (TokenBucket.tryConsume cost now _) as [ok b1];
    destruct ok; cbn -[recordViolation]; try done;
    match goal with
    | |- context [recordViolation k now ?s] =>
        destruct (Hrv s) as (H1 & H2 & H3 & H4); [done | done |];
        destruct (recordViolation k now s) as [v r4]
    end; cbn in *; subst v;
    (split_and!; [| done | done]); f_equal;
    unfold calculateRetryAfter; cbn; by rewrite H2.
Qed.

Lemma isAllowed_banned_result r k cost now :
  (isBanned k now r).1 = true →
  isAllowed k cost now r = (DenyBanned (getBanTimeRemaining k now r), r).
Proof.
  intros Hb. apply isBanned_true_iff in Hb as (b & Hb & Hlive).
  unfold isAllowed. by rewrite (isBanned_live r k now b Hb Hlive).
Qed.

Lemma isBanned_false_clears r k now :
  (isBanned k now r).1 = false → bannedSessions (isBanned k now r).2 !! k = None.
Proof.
  unfold isBanned. destruct (bannedSessions r !! k) as [b|] eqn:Hb; simpl; [| done].
  destruct (duration b <=? now - bannedAt b); simpl; [| discriminate].
  intros _. by rewrite lookup_delete_eq.
Qed.

(** The first call for a key the limiter has no bucket for is served from a
    full bucket: a cost up to the capacity is allowed and leaves [capacity -
    cost] tokens, in a bucket refilled last at the time of the call; no
    violation is recorded. *)
Theorem first_call_from_full_bucket r k cost now :
  (isBanned k now r).1 = false →
  buckets r !! k = None →
  cost <= capacity (options r) →
  (isAllowed k cost now r).1 = Allow (capacity (options r) - cost)
  ∧ buckets (isAllowed k cost now r).2 !! k
    = Some (TokenBucket.mk (capacity (options r)) (capacity (options r) - cost)
                           (refillRate (options r)) (refillInterval (options r)) now)
  ∧ violations (isAllowed k cost now r).2 = violations r.
Proof.
  intros Hnb Hnone Hcost.
  pose proof (isAllowed_outcome r k cost now Hnb) as Hout.
  destruct (isAllowed_bucket_of_key r k cost now Hnb) as [_ Hbk].
  cbn zeta in Hout. unfold bucketFor in Hout. rewrite Hnone in *. cbn [default] in *.
  set (b0 := TokenBucket.new _ _ _ now) in *.
  assert (Hre : TokenBucket.refill now b0 = b0).
  { unfold TokenBucket.refill, TokenBucket.intervalsElapsed, js_floor_div, b0. simpl.
    by rewrite Z.sub_diag, Zdiv_0_l. }
  assert (Htc : TokenBucket.tryConsume cost now b0
                = (true, TokenBucket.setTokens (capacity (options r) - cost) b0)).
  { unfold TokenBucket.tryConsume. rewrite Hre. simpl.
    destruct (Z.leb_spec cost (capacity (options r))); [done | lia]. }
  rewrite Htc in *. cbn [fst snd] in *.
  assert (Hre2 : TokenBucket.refill now
                   (TokenBucket.setTokens (capacity (options r) - cost) b0)
                 = TokenBucket.setTokens (capacity (options r) - cost) b0).
  { rewrite <- Hre at 1. rewrite refill_setTokens. by rewrite Hre. }
  rewrite Hre2 in *. destruct Hout as (Hres & Hv & _).
  split_and!; done.
Qed.

Lemma first_call_from_full_bucket_witness :
  (isAllowed "s1" 1 1000 (new serverOptions)).1 = Allow 19.
Proof.
  refine (proj1 (first_call_from_full_bucket (new serverOptions) "s1" 1 1000 _ _ _)).
  - reflexivity.
  - reflexivity.
  - vm_compute. discriminate.
Defined.

Lemma clocked_recordViolation_same k now r :
  Clocked.recordViolation k (Clocked.same now) r = recordViolation k now r.
Proof. reflexivity. Qed.

(** With one value for all reads, the call is [RateLimiter.isAllowed]. *)
Lemma clocked_isAllowed_same k cost now r :
  Clocked.isAllowed k cost (Clocked.same now) r = isAllowed k cost now r.
Proof. reflexivity. Qed.

Lemma refill_tokens_ge now b :
  bucket_wf b → TokenBucket.tokens b <= TokenBucket.tokens (TokenBucket.refill now b).
Proof.
  intros (Ht & Hr & Hi). unfold TokenBucket.refill.
  destruct (Z.ltb_spec 0 (TokenBucket.intervalsElapsed now b)); [| lia].
  cbn [TokenBucket.tokens]. nia.
Qed.

Lemma clocked_recordViolation_frame k c r :
  options (Clocked.recordViolation k c r).2 = options r
  ∧ buckets (Clocked.recordViolation k c r).2 = buckets r
  ∧ violations (Clocked.recordViolation k c r).2 !! k
    = Some (Clocked.recordViolation k c r).1.
Proof.
  unfold Clocked.recordViolation.
  destruct (_ <=? _); cbn; by rewrite lookup_insert_eq.
Qed.

(** What the call returns and leaves for a key that is not banned at the
    first read. *)
Lemma clocked_isAllowed_outcome r k cost c :
  (isBanned k (Clocked.atIsBanned c) r).1 = false →
  let tc := TokenBucket.tryConsume cost (Clocked.atTryConsume c)
              (bucketFor k (Clocked.atNewBucket c) r) in
  let b2 := TokenBucket.refill (Clocked.atGetTokens c) tc.2 in
  buckets (Clocked.isAllowed k cost c r).2 !! k = Some b2
  ∧ if tc.1 then
      (Clocked.isAllowed k cost c r).1 = Allow (TokenBucket.tokens b2)
      ∧ violations (Clocked.isAllowed k cost c r).2 = violations r
    else
      (Clocked.isAllowed k cost c r).1
        = DenyRateLimit (TokenBucket.tokens b2) (calculateRetryAfter r).
Proof.
  intros Hnb. cbn zeta. unfold Clocked.isAllowed, bucketFor.
  destruct (isBanned_state r k (Clocked.atIsBanned c)) as (Hopt & Hbk & Hviol & _).
  destruct (isBanned k (Clocked.atIsBanned c) r) as [isb r1]; simpl in *. subst isb.
  unfold getBucket. rewrite Hbk, Hopt.
  destruct (buckets r !! k) as [b|]; cbn -[Clocked.recordViolation];
    destruct (TokenBucket.tryConsume cost _ _) as [ok b1];
    destruct ok; cbn -[Clocked.recordViolation].
  all: try (rewrite lookup_insert_eq; split_and!; done).
  all: match goal with
       | |- context [Clocked.recordViolation ?k' ?c' ?s] =>
           destruct (clocked_recordViolation_frame k' c' s) as (H1 & H2 & _);
           destruct (Clocked.recordViolation k' c' s) as [v r4]
       end; cbn in *; rewrite lookup_insert_eq; (split; [done |]);
    unfold calculateRetryAfter; cbn; by rewrite H1, ?Hopt.
Qed.

(** An allowed call had a cost within the token count at the read of
    [tryConsume]; [tokensRemaining] is read later, by [getTokens]: it is at
    least that count less the cost, and exactly that when both reads return
    the same value.  It is the count the bucket is left with, and no
    violation is recorded. *)
Theorem allowed_call_accounting r k cost c n r' :
  Clocked.isAllowed k cost c r = (Allow n, r') →
  bucket_wf (bucketFor k (Clocked.atNewBucket c) r) →
  0 <= cost →
  let had := (TokenBucket.getTokens (Clocked.atTryConsume c)
                (bucketFor k (Clocked.atNewBucket c) r)).1 in
  cost <= had
  ∧ had - cost <= n
  ∧ (Clocked.atGetTokens c = Clocked.atTryConsume c → n = had - cost)
  ∧ (TokenBucket.tokens <$> buckets r' !! k) = Some n
  ∧ violations r' = violations r.
Proof.
  intros Heq Hwf Hcost had.
  destruct ((isBanned k (Clocked.atIsBanned c) r).1) eqn:Hib.
  { unfold Clocked.isAllowed in Heq.
    destruct (isBanned k (Clocked.atIsBanned c) r) as [isb r1]. simpl in Hib. subst isb.
    discriminate. }
  pose proof (clocked_isAllowed_outcome r k cost c Hib) as Hout. cbn zeta in Hout.
  rewrite Heq in Hout. cbn [fst snd] in Hout.
  set (b := bucketFor k (Clocked.atNewBucket c) r) in *.
  pose proof (refill_wf (Clocked.atTryConsume c) b Hwf) as Hwf1.
  unfold TokenBucket.tryConsume in Hout. subst had. unfold TokenBucket.getTokens.
  cbn [fst].
  set (b1 := TokenBucket.refill (Clocked.atTryConsume c) b) in *.
  destruct (Z.leb_spec cost (TokenBucket.tokens b1)) as [Hle | Hlt];
    cbn [fst snd] in Hout; destruct Hout as (Hbk & Hres); [| discriminate].
  destruct Hres as (Hres & Hv). injection Hres as ->.
  assert (Hwf2 : bucket_wf (TokenBucket.setTokens (TokenBucket.tokens b1 - cost) b1)).
  { destruct Hwf1 as (? & ? & ?). unfold bucket_wf. cbn. lia. }
  split_and!; [done | | | by rewrite Hbk | done].
  - pose proof (refill_tokens_ge (Clocked.atGetTokens c) _ Hwf2) as Hge.
    cbn [TokenBucket.setTokens TokenBucket.tokens] in Hge. exact Hge.
  - intros Hsame. rewrite Hsame. subst b1. by rewrite refill_setTokens.
Qed.

Lemma allowed_call_accounting_witness :
  let c := Clocked.mkReads 1000 1000 1000 1000 1000 1000 1000 2000 in
  let r := Clocked.isAllowed "s1" 1 c r_one_bucket in
  r.1 = Allow 9 ∧ 5 - 1 <= 9.
Proof.
  intros c r. split; [reflexivity |].
  refine (proj1 (proj2 (allowed_call_accounting r_one_bucket "s1" 1 c 9 r.2 _ _ _))).
  - reflexivity.
  - unfold bucket_wf. vm_compute. split_and!; discriminate || reflexivity.
  - lia.
Defined.

(** A call refused for [rate_limit] was short of tokens at the read of
    [tryConsume] and consumed none.  [tokensAvailable] is read later, by
    [getTokens]: it is at least the count the cost was compared with, exactly
    that count when both reads return the same value, and the count the
    bucket is left with.  When the refill rate is at least 1, [retryAfter]
    is one refill interval, however many tokens are missing. *)
Theorem rate_limit_denial_report r k cost c avail retry r' :
  Clocked.isAllowed k cost c r = (DenyRateLimit avail retry, r') →
  bucket_wf (bucketFor k (Clocked.atNewBucket c) r) →
  let had := (TokenBucket.getTokens (Clocked.atTryConsume c)
                (bucketFor k (Clocked.atNewBucket c) r)).1 in
  had < cost
  ∧ had <= avail
  ∧ (Clocked.atGetTokens c = Clocked.atTryConsume c → avail = had)
  ∧ (TokenBucket.tokens <$> buckets r' !! k) = Some avail
  ∧ (1 <= refillRate (options r) → retry = Some (refillInterval (options r))).
Proof.
  intros Heq Hwf had.
  destruct ((isBanned k (Clocked.atIsBanned c) r).1) eqn:Hib.
  { unfold Clocked.isAllowed in Heq.
    destruct (isBanned k (Clocked.atIsBanned c) r) as [isb r1]. simpl in Hib. subst isb.
    discriminate. }
  pose proof (clocked_isAllowed_outcome r k cost c Hib) as Hout. cbn zeta in Hout.
  rewrite Heq in Hout. cbn [fst snd] in Hout.
  set (b := bucketFor k (Clocked.atNewBucket c) r) in *.
  pose proof (refill_wf (Clocked.atTryConsume c) b Hwf) as Hwf1.
  unfold TokenBucket.tryConsume in Hout. subst had. unfold TokenBucket.getTokens.
  cbn [fst].
  set (b1 := TokenBucket.refill (Clocked.atTryConsume c) b) in *.
  destruct (Z.leb_spec cost (TokenBucket.tokens b1)) as [Hle | Hlt];
    cbn [fst snd] in Hout; destruct Hout as (Hbk & Hres); [by destruct Hres |].
  injection Hres as -> ->.
  split_and!; [done | | | by rewrite Hbk |].
  - by apply refill_tokens_ge.
  - intros Hsame. rewrite Hsame. subst b1. by rewrite refill_refill.
  - intros Hrate. unfold calculateRetryAfter, js_ceil_div.
    destruct (Z.eqb_spec (refillRate (options r)) 0); [lia |].
    f_equal.
    assert (Hq : Z.opp 1 / refillRate (options r) = -1).
    { symmetry.
      apply (Z.div_unique_pos (-1) _ (-1) (refillRate (options r) - 1)); lia. }
    rewrite Hq. lia.
Qed.

Lemma rate_limit_denial_report_witness :
  let c := Clocked.mkReads 500 500 500 500 500 500 500 1000 in
  let r := Clocked.isAllowed "s1" 1 c r_one_bucket in
  r.1 = DenyRateLimit 5 (Some 1000) ∧ 0 < 1 ∧ 0 <= 5.
Proof.
  intros c r. split; [reflexivity |].
  destruct (rate_limit_denial_report r_one_bucket "s1" 1 c 5 (Some 1000) r.2)
    as (H1 & H2 & _).
  - reflexivity.
  - unfold bucket_wf. vm_compute. split_and!; discriminate || reflexivity.
  - split; [exact H1 | exact H2].
Defined.

(** A call refused for [rate_limit] counts as exactly one violation of its
    key and of no other: the record is created at count 1 or its count goes
    up by one, [firstViolation] stays and [lastViolation] is the time of the
    call.  After it the key has a ban record exactly when the count has
    reached [banThreshold], and that record starts at the time of the call
    and lasts [banDuration]. *)
Theorem rate_limit_denial_bookkeeping r k cost now avail retry r' :
  isAllowed k cost now r = (DenyRateLimit avail retry, r') →
  let v := match violations r !! k with
           | Some v => mkViolation (count v + 1) (firstViolation v) now
           | None => mkViolation 1 now now
           end in
  violations r' !! k = Some v
  ∧ (∀ k', k' ≠ k → violations r' !! k' = violations r !! k')
  ∧ bannedSessions r' !! k
    = (if banThreshold (options r) <=? count v
       then Some (mkBan now (banDuration (options r)) "excessive_rate_limit_violations")
       else None).
Proof.
  intros Heq v.
  destruct ((isBanned k now r).1) eqn:Hib.
  { rewrite (isAllowed_banned_result r k cost now Hib) in Heq. discriminate. }
  pose proof (isAllowed_outcome r k cost now Hib) as Hout.
  pose proof (isBanned_false_clears r k now Hib) as Hclear.
  cbn zeta in Hout. rewrite Heq in *. cbn [fst snd] in *.
  destruct ((TokenBucket.tryConsume cost now (bucketFor k now r)).1).
  { destruct Hout as (Hres & _). discriminate. }
  destruct Hout as (_ & Hv & Hb).
  rewrite recordViolation_record in Hv, Hb. fold v in Hv, Hb.
  split_and!.
  - by rewrite Hv, lookup_insert_eq.
  - intros k' Hne. by rewrite Hv, lookup_insert_ne.
  - rewrite Hb. destruct (banThreshold (options r) <=? count v).
    + by rewrite lookup_insert_eq.
    + done.
Qed.

Lemma rate_limit_denial_bookkeeping_witness :
  violations (isAllowed "s1" 1 500 r_one_bucket).2 !! "s1"
    = Some (mkViolation 1 500 500).
Proof.
  refine (proj1 (rate_limit_denial_bookkeeping r_one_bucket "s1" 1 500 0 (Some 1000)
                   (isAllowed "s1" 1 500 r_one_bucket).2 _)).
  vm_compute. reflexivity.
Defined.

(** A request that costs more than a full bucket holds is refused for a key
    that is not banned, whenever it comes. *)
Theorem oversized_request_refused r k cost now :
  (isBanned k now r).1 = false →
  bucket_wf (bucketFor k now r) →
  TokenBucket.capacity (bucketFor k now r) < cost →
  ∃ avail, (isAllowed k cost now r).1 = DenyRateLimit avail (calculateRetryAfter r)
           ∧ avail <= TokenBucket.capacity (bucketFor k now r).
Proof.
  intros Hib Hwf Hcost.
  pose proof (isAllowed_outcome r k cost now Hib) as Hout.
  cbn zeta in Hout.
  pose proof (tryConsume_then_getTokens cost now (bucketFor k now r)) as Htok.
  rewrite (tryConsume_over_capacity cost now _ Hwf Hcost) in *.
  destruct Hout as (Hres & _). eexists. split; [exact Hres |].
  rewrite Htok. cbn. destruct (refill_wf now _ Hwf) as (? & _).
  destruct (refill_params now (bucketFor k now r)) as (Hc & _). lia.
Qed.

Lemma oversized_request_refused_witness :
  ∃ avail, (isAllowed "s1" 21 999999 (new serverOptions)).1
             = DenyRateLimit avail (calculateRetryAfter (new serverOptions))
           ∧ avail <= TokenBucket.capacity (bucketFor "s1" 999999 (new serverOptions)).
Proof.
  apply (oversized_request_refused (new serverOptions) "s1" 21 999999).
  - reflexivity.
  - unfold bucket_wf, bucketFor. simpl. rewrite lookup_empty. simpl. lia.
  - unfold bucketFor. simpl. rewrite lookup_empty. simpl. lia.
Defined.

End LimiterMore.

(** ** Rate limiter: bans, resets and cleanup *)

Section LimiterHousekeeping.
Import RateLimiter.
Implicit Types (r : RateLimiter.t) (k key : string) (now cost : Z).

Lemma clocked_isAllowed_banned r k cost c retry r' :
  Clocked.isAllowed k cost c r = (DenyBanned retry, r') →
  (isBanned k (Clocked.atIsBanned c) r).1 = true
  ∧ r' = r
  ∧ retry = getBanTimeRemaining k (Clocked.atBanTimeRemaining c) r.
Proof.
  intros Heq.
  destruct ((isBanned k (Clocked.atIsBanned c) r).1) eqn:Hib.
  - apply isBanned_true_iff in Hib as (b & Hb & Hlive).
    unfold Clocked.isAllowed in Heq.
    rewrite (isBanned_live r k _ b Hb Hlive) in Heq. by injection Heq as <- <-.
  - pose proof (clocked_isAllowed_outcome r k cost c Hib) as Hout. cbn zeta in Hout.
    rewrite Heq in Hout. cbn [fst] in Hout. destruct Hout as [_ Hout].
    destruct ((TokenBucket.tryConsume cost _ _).1); [by destruct Hout | discriminate].
Qed.

(** The remaining ban time is never negative, is positive exactly when the
    ban check at the same clock value answers [true], and does not exceed the
    ban's duration once the clock has reached [bannedAt].  A [banned] answer
    of [isAllowed] leaves the limiter as it was and carries the remaining
    time at its own, later clock read: it is positive when that read returns
    the value the ban check read, and [0] when the ban has run out in
    between. *)
Theorem ban_time_remaining :
  ∀ r k now,
    0 <= getBanTimeRemaining k now r
    ∧ ((isBanned k now r).1 = true ↔ 0 < getBanTimeRemaining k now r)
    ∧ (∀ b, bannedSessions r !! k = Some b → bannedAt b <= now →
            getBanTimeRemaining k now r <= Z.max 0 (duration b))
    ∧ (∀ cost c retry r',
         Clocked.atIsBanned c = now →
         Clocked.isAllowed k cost c r = (DenyBanned retry, r') →
         r' = r
         ∧ retry = getBanTimeRemaining k (Clocked.atBanTimeRemaining c) r
         ∧ 0 <= retry
         ∧ (Clocked.atBanTimeRemaining c = now → 0 < retry)
         ∧ (∀ b, bannedSessions r !! k = Some b →
                 duration b <= Clocked.atBanTimeRemaining c - bannedAt b →
                 retry = 0)).
Proof.
  intros r k now.
  assert (Hiff : ∀ now, (isBanned k now r).1 = true ↔ 0 < getBanTimeRemaining k now r).
  { clear now. intros now. rewrite isBanned_true_iff. unfold getBanTimeRemaining.
    destruct (bannedSessions r !! k) as [b|].
    - split; [intros (b' & [= <-] & Hlt); lia | intros Hpos; exists b; split; [done | lia]].
    - split; [intros (b' & [=] & _) | lia]. }
  assert (Hpos : ∀ now, 0 <= getBanTimeRemaining k now r).
  { intros t. unfold getBanTimeRemaining. destruct (bannedSessions r !! k); lia. }
  split_and!.
  - apply Hpos.
  - apply Hiff.
  - intros b Hb Hnow. unfold getBanTimeRemaining. rewrite Hb. lia.
  - intros cost c retry r' Hnow Heq.
    apply clocked_isAllowed_banned in Heq as (Hib & -> & ->).
    split_and!; [done | done | apply Hpos | |].
    + intros Hsame. rewrite Hsame. apply Hiff. by rewrite <- Hnow.
    + intros b Hb Hout. unfold getBanTimeRemaining. rewrite Hb. lia.
Qed.

(** [unban] lifts the ban at once, for every later clock value: the ban
    check answers [false], admission does not answer [banned], the violation
    count of the key starts over, and no other key is affected. *)
Theorem unban_lifts_ban :
  ∀ r k now cost,
    (isBanned k now (unban k r)).1 = false
    ∧ (∀ retry, (isAllowed k cost now (unban k r)).1 ≠ DenyBanned retry)
    ∧ violations (unban k r) !! k = None
    ∧ buckets (unban k r) = buckets r
    ∧ (∀ k', k' ≠ k →
         (isBanned k' now (unban k r)).1 = (isBanned k' now r).1
         ∧ violations (unban k r) !! k' = violations r !! k').
Proof.
  intros r k now cost.
  assert (Hnb : (isBanned k now (unban k r)).1 = false).
  { unfold isBanned, unban. simpl. by rewrite lookup_delete_eq. }
  split_and!.
  - exact Hnb.
  - intros retry Hres.
    pose proof (isAllowed_outcome (unban k r) k cost now Hnb) as Hout.
    cbn zeta in Hout. rewrite Hres in Hout.
    destruct ((TokenBucket.tryConsume cost now (bucketFor k now (unban k r))).1);
      destruct Hout as (Hr & _); discriminate.
  - unfold unban. simpl. by rewrite lookup_delete_eq.
  - reflexivity.
  - intros k' Hne. split.
    + unfold isBanned, unban. simpl. rewrite lookup_delete_ne by done.
      destruct (bannedSessions r !! k') as [b|]; [| done].
      by destruct (duration b <=? now - bannedAt b).
    + unfold unban. simpl. by rewrite lookup_delete_ne.
Qed.

(** After [reset], the next call of a key that is not banned is served from
    a full bucket again, and its violation count starts over. *)
Theorem reset_then_call r k cost now :
  (isBanned k now r).1 = false →
  cost <= capacity (options r) →
  (isAllowed k cost now (reset k r)).1 = Allow (capacity (options r) - cost)
  ∧ violations (isAllowed k cost now (reset k r)).2 !! k = None.
Proof.
  intros Hnb Hcost.
  assert (Hnb' : (isBanned k now (reset k r)).1 = false).
  { unfold isBanned in *. simpl.
    destruct (bannedSessions r !! k) as [b|]; [| done].
    by destruct (duration b <=? now - bannedAt b). }
  pose proof (isAllowed_outcome (reset k r) k cost now Hnb') as Hout.
  cbn zeta in Hout. unfold bucketFor in Hout. simpl in Hout.
  rewrite lookup_delete_eq in Hout. cbn [default] in Hout.
  set (b0 := TokenBucket.new _ _ _ now) in *.
  assert (Hre : TokenBucket.refill now b0 = b0).
  { unfold TokenBucket.refill, TokenBucket.intervalsElapsed, js_floor_div, b0. simpl.
    by rewrite Z.sub_diag, Zdiv_0_l. }
  assert (Htc : TokenBucket.tryConsume cost now b0
                = (true, TokenBucket.setTokens (capacity (options r) - cost) b0)).
  { unfold TokenBucket.tryConsume. rewrite Hre. simpl.
    destruct (Z.leb_spec cost (capacity (options r))); [done | lia]. }
  rewrite Htc in Hout. cbn [fst snd] in Hout.
  rewrite <- Hre in Hout at 1. rewrite refill_setTokens, Hre in Hout.
  destruct Hout as (Hres & Hv & _). split; [exact Hres |].
  rewrite Hv. by rewrite lookup_delete_eq.
Qed.

Lemma reset_then_call_witness :
  (isAllowed "s1" 1 500 (reset "s1" r_one_bucket)).1 = Allow 19.
Proof.
  refine (proj1 (reset_then_call r_one_bucket "s1" 1 500 _ _)).
  - reflexivity.
  - vm_compute. discriminate.
Defined.

Lemma filter_twice `{∀ x : string * A, Decision (P x)} (m : gmap string A) :
  filter P (filter P m) = filter P m.
Proof.
  apply map_filter_id. intros i x Hix.
  by apply map_lookup_filter_Some in Hix as [_ ?].
Qed.

(** [cleanup] run twice at the same clock value does nothing more, and the
    bans it purges are those the ban check would have dropped anyway: at any
    later clock value the ban check answers after a cleanup as it would have
    without it. *)
Theorem cleanup_idempotent_unobservable :
  ∀ r now,
    cleanup now (cleanup now r) = cleanup now r
    ∧ (∀ k now', now <= now' →
         (isBanned k now' (cleanup now r)).1 = (isBanned k now' r).1).
Proof.
  intros r now. split.
  - unfold cleanup. simpl. f_equal; apply filter_twice.
  - intros k now' Hle. unfold isBanned. simpl.
    destruct (bannedSessions r !! k) as [b|] eqn:Hb.
    + destruct (Z.le_gt_cases (duration b) (now - bannedAt b)) as [Hexp | Hlive].
      * rewrite map_lookup_filter_None_2.
        -- destruct (Z.leb_spec (duration b) (now' - bannedAt b)); [done | lia].
        -- right. intros b' Hb'. simplify_eq. simpl. lia.
      * rewrite (map_lookup_filter_Some_2 _ _ _ b) by (done || simpl; lia).
        by destruct (duration b <=? now' - bannedAt b).
    + rewrite map_lookup_filter_None_2; [done | by left].
Qed.

End LimiterHousekeeping.

Section BucketEviction.
Import TokenBucket.

(** A bucket that [cleanup] evicts for being idle for over an hour would
    have been full at its next use: provided the refill interval is at most
    an hour and an hour of refills fills the bucket, observing the old bucket
    at a later time gives exactly the bucket the limiter creates afresh. *)
Theorem evicted_bucket_was_full (now now' : Z) (b : TokenBucket.t) :
  bucket_wf b →
  RateLimiter.maxAge < now - lastRefill b →
  now <= now' →
  refillInterval b <= RateLimiter.maxAge →
  capacity b <= RateLimiter.maxAge / refillInterval b * refillRate b →
  refill now' b = new (capacity b) (refillRate b) (refillInterval b) now'.
Proof.
  intros (Ht & Hr & Hi) Hidle Hle Hint Hcap.
  unfold refill, intervalsElapsed, js_floor_div, new.
  assert (Hk : RateLimiter.maxAge / refillInterval b
               <= (now' - lastRefill b) / refillInterval b).
  { apply Z.div_le_mono; lia. }
  assert (Hone : 1 <= RateLimiter.maxAge / refillInterval b).
  { apply Z.div_le_lower_bound; lia. }
  destruct (Z.ltb_spec 0 ((now' - lastRefill b) / refillInterval b)); [| lia].
  f_equal. apply Z.min_l. nia.
Qed.

Lemma evicted_bucket_was_full_witness :
  refill 3700000 (mk 20 0 5 1000 0) = new 20 5 1000 3700000.
Proof.
  apply (evicted_bucket_was_full 3600001 3700000 (mk 20 0 5 1000 0)).
  - unfold bucket_wf. simpl. lia.
  - unfold RateLimiter.maxAge. simpl. lia.
  - lia.
  - unfold RateLimiter.maxAge. simpl. lia.
  - vm_compute. discriminate.
Defined.

End BucketEviction.

(** ** Connection handler: what is sent, and to whom *)

Section ConnectionsMore.
Import WebSocketServer.

Lemma sentFrames_closed f c :
  readyState c ≠ OPEN → sendToClient f c = c.
Proof. unfold sendToClient. by destruct (readyState c). Qed.

Lemma readyState_close c : readyState c ≠ OPEN → close c = c.
Proof. unfold close. destruct c as [? st ? ? ? ? ? ?]. simpl. by destruct st. Qed.

(** The risk score of a batch is one of 0, 15, 20, 30, 35, 40, 55 and 70:
    it never exceeds 70, so the bot flag ([riskScore > 80]) the batch handler
    stores with it is always [false]. *)
Theorem risk_score_at_most_70 :
  ∀ stats,
    0 <= calculateRiskScore stats <= 70
    ∧ (80 <? calculateRiskScore stats) = false.
Proof.
  intros stats.
  assert (H : 0 <= calculateRiskScore stats <= 70).
  { unfold calculateRiskScore.
    destruct (PrimFloat.ltb _ _); [| destruct (PrimFloat.ltb _ _)];
      destruct (30 <? _); try destruct (10 <? _); lia. }
  split; [exact H |]. destruct (Z.ltb_spec 80 (calculateRiskScore stats)); [lia | done].
Qed.

(** A command taken from the bus is sent to every open connection bound to
    its session hash, to each once, and to no other connection; delivery
    binds, unbinds, closes and removes nothing. *)
Lemma deliver_to_bound_open :
  ∀ hash command s connectionId,
    match connections s !! connectionId with
    | None => connections (deliver hash command s) !! connectionId = None
    | Some c =>
        ∃ c', connections (deliver hash command s) !! connectionId = Some c'
              ∧ sessionHash c' = sessionHash c
              ∧ readyState c' = readyState c
              ∧ sentFrames c'
                = if bool_decide (sessionHash c = Some hash ∧ readyState c = OPEN)
                  then sentFrames c ++ [FCommand command]
                  else sentFrames c
    end
    ∧ rateLimiter (deliver hash command s) = rateLimiter s.
Proof.
  intros hash command s connectionId. split; [| reflexivity].
  unfold deliver. simpl. rewrite lookup_fmap.
  destruct (connections s !! connectionId) as [c|]; simpl; [| done].
  eexists. split; [done |].
  case_bool_decide as Hh.
  - unfold sendToClient. destruct (readyState c) eqn:Hst; simpl;
      rewrite ?Hst; split_and!; try done.
    + rewrite bool_decide_eq_true_2; done.
    + rewrite bool_decide_eq_false_2; [done | intros [_ ?]; done].
    + rewrite bool_decide_eq_false_2; [done | intros [_ ?]; done].
  - split_and!; try done. rewrite bool_decide_eq_false_2; [done | intros [? _]; done].
Qed.

(** Nothing is sent on a socket that is not open, and a socket never
    reopens: handling a message of any connection and delivering a command
    leave the frames and the closed state of such a connection as they
    were. *)
Theorem closed_socket_stays_silent :
  ∀ s connectionId c,
    connections s !! connectionId = Some c →
    readyState c ≠ OPEN →
    (∀ other data now w,
       ∃ c', connections (handleMessage other data now s w).1 !! connectionId = Some c'
             ∧ readyState c' = readyState c ∧ sentFrames c' = sentFrames c)
    ∧ (∀ hash command,
         ∃ c', connections (deliver hash command s) !! connectionId = Some c'
               ∧ readyState c' = readyState c ∧ sentFrames c' = sentFrames c).
Proof.
  intros s connectionId c Hc Hst. split.
  - intros other data now w.
    destruct (decide (other = connectionId)) as [->|Hne];
      [| rewrite handleMessage_others by done; eauto].
    unfold handleMessage. rewrite Hc.
    destruct data as [message|]; [| eauto].
    destruct (get_prop message "sessionHash") as [v|];
      [| simpl; rewrite lookup_insert_eq; eauto].
    set (c2 := match sessionHash (setLastActivity now c), sessionHashOf message with
               | None, Some h => setSessionHash (Some h) (setLastActivity now c)
               | _, _ => setLastActivity now c
               end).
    assert (Hc2 : readyState c2 = readyState c ∧ sentFrames c2 = sentFrames c).
    { subst c2. simpl. destruct (sessionHash c); [done |].
      by destruct (sessionHashOf message). }
    destruct Hc2 as [Hr2 Hs2].
    destruct (RateLimiter.isAllowed _ 1 now (rateLimiter s)) as [result limiter].
    destruct result.
    + destruct (route _ c2 message now w) as [w1 fine]. simpl.
      rewrite lookup_insert_eq. eexists. split; [done |]. by destruct fine.
    + simpl. rewrite lookup_insert_eq. eexists. split; [done |].
      rewrite sentFrames_closed by congruence.
      rewrite readyState_close by congruence. done.
    + simpl. rewrite lookup_insert_eq. eauto.
  - intros hash command. unfold deliver. simpl. rewrite lookup_fmap, Hc. simpl.
    eexists. split; [done |]. case_bool_decide; [| done].
    by rewrite sentFrames_closed.
Qed.

Lemma closed_socket_stays_silent_witness :
  ∃ c', connections
          (deliver "abcd" banNotice
             (putConnection "c-1"
                (mkConnection "c-1" CLOSING [] "8.8.8.8" (Some "abcd") 0 0 0) new))
        !! "c-1" = Some c'
        ∧ readyState c' = CLOSING ∧ sentFrames c' = [].
Proof.
  refine (proj2 (closed_socket_stays_silent
            (putConnection "c-1"
               (mkConnection "c-1" CLOSING [] "8.8.8.8" (Some "abcd") 0 0 0) new)
            "c-1" (mkConnection "c-1" CLOSING [] "8.8.8.8" (Some "abcd") 0 0 0) _ _)
          "abcd" banNotice).
  - reflexivity.
  - simpl. discriminate.
Defined.

(** A frame of a banned key (its [sessionHash] a string or falsy) is
    answered with the [TERMINATE] notice and the closing of its socket, and
    with nothing else: the stores, the limiter and the other connections are
    as before and the frame is not counted.  Before the ban is looked at the
    connection has been bound to the hash of the frame, if it was unbound and
    the frame carries one, and its [lastActivity] has been set. *)
Theorem banned_frame_closes_socket s w connectionId c message now :
  connections s !! connectionId = Some c →
  is_Some (get_prop message "sessionHash") →
  plainHash message = true →
  (RateLimiter.isBanned (default connectionId (sessionHashOf message)) now
                        (rateLimiter s)).1 = true →
  ∃ c', handleMessage connectionId (Some message) now s w
        = (putConnection connectionId c' s, w)
        ∧ readyState c' ≠ OPEN
        ∧ sentFrames c'
          = (if bool_decide (readyState c = OPEN)
             then sentFrames c ++ [FCommand banNotice] else sentFrames c)
        ∧ sessionHash c'
          = match sessionHash c with
            | Some h => Some h
            | None => sessionHashOf message
            end
        ∧ eventCount c' = eventCount c
        ∧ id c' = id c ∧ ip c' = ip c ∧ connectedAt c' = connectedAt c.
Proof.
  intros Hc [v Hv] _ Hban. unfold handleMessage. rewrite Hc, Hv.
  rewrite (isAllowed_banned_result _ _ 1 now Hban).
  eexists. split.
  { reflexivity. }
  set (c2 := match sessionHash (setLastActivity now c), sessionHashOf message with
             | None, Some h => setSessionHash (Some h) (setLastActivity now c)
             | _, _ => setLastActivity now c
             end).
  assert (Hc2 : readyState c2 = readyState c ∧ sentFrames c2 = sentFrames c
                ∧ eventCount c2 = eventCount c
                ∧ sessionHash c2 = match sessionHash c with
                                   | Some h => Some h
                                   | None => sessionHashOf message
                                   end
                ∧ id c2 = id c ∧ ip c2 = ip c ∧ connectedAt c2 = connectedAt c).
  { subst c2. cbn [setLastActivity sessionHash].
    destruct (sessionHash c) eqn:Hh; [cbn; by rewrite Hh |].
    destruct (sessionHashOf message); cbn; by rewrite ?Hh. }
  destruct Hc2 as (Hr & Hs & He & Hh & Hi & Hp & Ha).
  unfold close, sendToClient. rewrite Hr.
  destruct (readyState c) eqn:Hst; simpl; rewrite ?Hr, ?Hst; simpl;
    split_and!; try done; by rewrite ?Hs.
Qed.

Lemma banned_frame_closes_socket_witness :
  ∃ c', handleMessage "c-1" (Some handshake_abcd) 2000
          (setRateLimiter
             (RateLimiter.setBanned
                {[ "abcd" := RateLimiter.mkBan 1000 300000 "excessive_rate_limit_violations" ]}
                (RateLimiter.new RateLimiter.serverOptions))
             (handleConnection "c-1" "8.8.8.8" 0 new)) w_abcd
        = (putConnection "c-1" c'
             (setRateLimiter
                (RateLimiter.setBanned
                   {[ "abcd" := RateLimiter.mkBan 1000 300000 "excessive_rate_limit_violations" ]}
                   (RateLimiter.new RateLimiter.serverOptions))
                (handleConnection "c-1" "8.8.8.8" 0 new)), w_abcd)
        ∧ readyState c' ≠ OPEN.
Proof.
  destruct (banned_frame_closes_socket
              (setRateLimiter
                 (RateLimiter.setBanned
                    {[ "abcd" := RateLimiter.mkBan 1000 300000
                                   "excessive_rate_limit_violations" ]}
                    (RateLimiter.new RateLimiter.serverOptions))
                 (handleConnection "c-1" "8.8.8.8" 0 new))
              w_abcd "c-1"
              (mkConnection "c-1" OPEN [FConnected "c-1" 0] "8.8.8.8" None 0 0 0)
              handshake_abcd 2000)
    as (c' & Heq & Hst & _).
  - reflexivity.
  - by eexists.
  - reflexivity.
  - vm_compute. reflexivity.
  - exists c'. split; [exact Heq | exact Hst].
Defined.

End ConnectionsMore.

(** ** Connection handler: what reaches the stores *)

Section ConnectionStores.
Import WebSocketServer.

Lemma alter_keeps {A B} (f : A → A) (g : A → B) (m : gmap string A) (h h' : string) :
  (∀ x, g (f x) = g x) →
  g <$> alter f h m !! h' = g <$> m !! h'.
Proof.
  intros Hf. destruct (decide (h = h')) as [->|Hne].
  - rewrite lookup_alter_eq. destruct (m !! h'); simpl; [by rewrite Hf | done].
  - by rewrite lookup_alter_ne.
Qed.

(** After the first refusal of a key, queried at the same clock value, the
    statistics show one violation at an infinite rate, so with the threshold
    of 5 events per second they ask for a throttle at once. *)
Lemma first_denial_signals_throttle r k cost now avail retry r' :
  RateLimiter.violations r !! k = None →
  RateLimiter.maxEventsPerSecond (RateLimiter.options r) = 5 →
  RateLimiter.isAllowed k cost now r = (RateLimiter.DenyRateLimit avail retry, r') →
  RateLimiter.getViolationStats k now r'
    = Some (RateLimiter.mkStats 1 infinity true
              (RateLimiter.throttleLatency (RateLimiter.options r))).
Proof.
  intros Hnone Hmax Heq.
  destruct ((RateLimiter.isBanned k now r).1) eqn:Hib.
  { rewrite (isAllowed_banned_result r k cost now Hib) in Heq. discriminate. }
  pose proof (isAllowed_outcome r k cost now Hib) as Hout.
  destruct (isAllowed_bucket_of_key r k cost now Hib) as [Hopt _].
  cbn zeta in Hout. rewrite Heq in *. cbn [fst snd] in *.
  destruct ((TokenBucket.tryConsume cost now (bucketFor k now r)).1).
  { destruct Hout as (Hres & _). discriminate. }
  destruct Hout as (_ & Hv & _).
  rewrite recordViolation_record, Hnone in Hv.
  unfold RateLimiter.getViolationStats. rewrite Hv, lookup_insert_eq, Hopt, Hmax.
  cbn [RateLimiter.count RateLimiter.firstViolation]. rewrite Z.sub_diag.
  vm_compute (PrimFloat.mul _ _). reflexivity.
Qed.

Lemma first_denial_signals_throttle_witness :
  RateLimiter.getViolationStats "s1" 500 (RateLimiter.isAllowed "s1" 1 500 r_one_bucket).2
    = Some (RateLimiter.mkStats 1 infinity true 2000).
Proof.
  apply (first_denial_signals_throttle r_one_bucket "s1" 1 500 0 (Some 1000)).
  - reflexivity.
  - reflexivity.
  - vm_compute. reflexivity.
Defined.

(** When the statistics ask for a throttle and the stores answer, the
    handler demotes the session to [downspin] at the throttle latency
    whatever mode it was in, [terminated] included, publishes one
    [SET_LATENCY] envelope for it and counts the violation on its row; it
    writes no audit row. *)
Theorem auto_throttle_demotes s c h now w stats row :
  RateLimiter.getViolationStats h now (rateLimiter s) = Some stats →
  RateLimiter.shouldThrottle stats = true →
  Postgres.up (pg w) = true →
  Redis.up (redis w) = true →
  Postgres.sessions (pg w) !! h = Some row →
  let w' := autoThrottle s c (Some h) now w in
  Postgres.sessions (pg w') !! h
    = Some (Postgres.mkSession
              (Postgres.ip_address row) (Postgres.connected row) (Postgres.last_seen row)
              (RateLimiter.stats_throttleLatency stats) Postgres.downspin
              (Postgres.total_events row) (Postgres.risk_score row) (Postgres.is_bot row)
              (Postgres.rate_limit_violations row + 1))
  ∧ Redis.published (redis w')
    = Redis.published (redis w)
      ++ [(h, mkCommand (Some (next_uuid w)) SET_LATENCY
                (PLatency (RateLimiter.stats_throttleLatency stats)))]
  ∧ Postgres.command_history (pg w') = Postgres.command_history (pg w).
Proof.
  intros Hstats Hthrottle Hpg Hredis Hrow w'. subst w'.
  unfold autoThrottle. rewrite Hstats, Hthrottle.
  unfold sendThrottleCommand, uuidv4, Redis.publish. cbn [redis pg]. rewrite Hredis.
  unfold Postgres.updateSessionMode. cbn [setRedis pg]. rewrite Hpg.
  unfold Postgres.incrementViolations, ClickHouse.logRateViolation.
  cbn [setPg setClickhouse pg redis clickhouse Postgres.up Postgres.setSessions
       Postgres.sessions Postgres.command_history].
  rewrite Hpg.
  destruct (ClickHouse.up (clickhouse w));
    cbn [setPg setClickhouse pg redis clickhouse Postgres.up Postgres.setSessions
         Postgres.sessions Postgres.command_history Redis.published];
    rewrite !lookup_alter_eq, Hrow; done.
Qed.

Lemma auto_throttle_demotes_witness :
  Postgres.mode <$>
    Postgres.sessions
      (pg (autoThrottle
             (setRateLimiter (RateLimiter.isAllowed "abcd" 1 500
                                (RateLimiter.setBuckets
                                   {[ "abcd" := TokenBucket.mk 20 0 5 1000 0 ]}
                                   (RateLimiter.new RateLimiter.serverOptions))).2 new)
             (mkConnection "c-1" OPEN [] "8.8.8.8" (Some "abcd") 0 0 0)
             (Some "abcd") 500
             (Admin.serve None Admin.PostTerminate
                (request_abcd (Some Admin.defaultKey)) 100 w_abcd).2)) !! "abcd"
  = Some Postgres.downspin.
Proof.
  set (s := setRateLimiter _ new).
  set (w := (Admin.serve None Admin.PostTerminate _ 100 w_abcd).2).
  pose proof (auto_throttle_demotes s
                (mkConnection "c-1" OPEN [] "8.8.8.8" (Some "abcd") 0 0 0)
                "abcd" 500 w (RateLimiter.mkStats 1 infinity true 2000)
                (Postgres.mkSession "8.8.8.8" true 0 0 Postgres.terminated 0 0 false 0))
    as H.
  cbn zeta in H. destruct H as (H & _).
  - vm_compute. reflexivity.
  - reflexivity.
  - reflexivity.
  - reflexivity.
  - vm_compute. reflexivity.
  - by rewrite H.
Defined.


Lemma assoc_app_not_in k (l1 l2 : list (string * JSValue)) :
  existsb (fun u => String.eqb (fst u) k) l1 = false →
  assoc k (l1 ++ l2) = assoc k l2.
Proof.
  induction l1 as [|[k' v] l1 IH]; simpl; [done |].
  intros H. apply orb_false_iff in H as [Hk Hrest].
  rewrite String.eqb_sym, Hk. by apply IH.
Qed.

Lemma set_fields_sessionHash event h ip ts :
  get_prop (set_fields event [("sessionHash", JStr h); ("ipAddress", ip);
                              ("timestamp", ts)]) "sessionHash"
    = Some (JStr h).
Proof.
  unfold set_fields, get_prop. f_equal. rewrite assoc_app_not_in; [done |].
  induction (own_fields event) as [|[k v] l IH]; [done |].
  rewrite filter_cons. case_decide as Hkeep; [| exact IH].
  change (((k =? "sessionHash")%string
           || existsb (fun u : string * JSValue => (u.1 =? "sessionHash")%string)
                (filter (fun kv : string * JSValue =>
                           negb (existsb (fun u : string * JSValue => (u.1 =? kv.1)%string)
                                   [("sessionHash", JStr h); ("ipAddress", ip);
                                    ("timestamp", ts)])) l)) = false).
  apply orb_false_iff. split; [| exact IH].
  cbn [existsb fst] in Hkeep.
  destruct (String.eqb_spec k "sessionHash") as [->|Hne]; [| done].
  by rewrite String.eqb_refl in Hkeep.
Qed.

(** With a session hash to stamp, the event sink rejects no flat event of
    a batch: when no event is [null] or [undefined] and no field of an event
    is an array or an object, the loop ends without throwing. *)
Theorem stamped_events_are_accepted :
  ∀ events h clientIp now c,
    h ≠ "" →
    Forall (fun event => is_Some (get_prop event "timestamp")) events →
    Forall (fun event => flatEvent event = true) events →
    (logEvents events (Some h) clientIp now c).2 = true.
Proof.
  induction events as [|event rest IH]; intros h clientIp now c Hh Hall Hflat;
    [done |].
  inversion Hall as [|? ? [ts Hts] Hrest]; subst.
  apply Forall_cons in Hflat as [_ Hflat]. simpl. rewrite Hts.
  unfold ClickHouse.logEvent.
  destruct (ClickHouse.isShuttingDown c); [by apply IH |].
  destruct (ClickHouse.MAX_QUEUE_SIZE <=? _); [by apply IH |].
  unfold ClickHouse.validEvent. rewrite set_fields_sessionHash.
  destruct (String.eqb_spec h ""); [done |]. simpl.
  destruct (ClickHouse.batchSize c <=? _); by apply IH.
Qed.

Lemma stamped_events_are_accepted_witness :
  (logEvents [JObj [("type", JStr "click")]; JNum 7] (Some "abcd") "8.8.8.8" 10
             (clickhouse w_abcd)).2 = true.
Proof.
  apply (stamped_events_are_accepted
           [JObj [("type", JStr "click")]; JNum 7] "abcd" "8.8.8.8" 10 (clickhouse w_abcd)).
  - discriminate.
  - repeat constructor; by eexists.
  - repeat constructor.
Defined.

Lemma autoThrottle_frame s c hash now w :
  ClickHouse.eventQueue (clickhouse (autoThrottle s c hash now w))
    = ClickHouse.eventQueue (clickhouse w)
  ∧ ClickHouse.events (clickhouse (autoThrottle s c hash now w))
    = ClickHouse.events (clickhouse w)
  ∧ ∀ h, Postgres.total_events <$> Postgres.sessions (pg (autoThrottle s c hash now w)) !! h
         = Postgres.total_events <$> Postgres.sessions (pg w) !! h.
Proof.
  unfold autoThrottle. destruct hash as [h0|]; [| done].
  destruct (RateLimiter.getViolationStats h0 now (rateLimiter s)) as [stats|]; [| done].
  destruct (RateLimiter.shouldThrottle stats); [| done].
  unfold sendThrottleCommand, uuidv4, Redis.publish. cbn [redis pg].
  destruct (Redis.up (redis w)); [| done].
  unfold Postgres.updateSessionMode. cbn [setRedis pg].
  destruct (Postgres.up (pg w)) eqn:Hup; [| done].
  unfold Postgres.incrementViolations, ClickHouse.logRateViolation.
  simpl. rewrite Hup.
  destruct (ClickHouse.up (clickhouse w)); simpl;
    (split_and!; [done | done |]); intros h;
    rewrite (alter_keeps _ Postgres.total_events) by (intros; reflexivity);
    rewrite (alter_keeps _ Postgres.total_events) by (intros; reflexivity);
    reflexivity.
Qed.

(** A frame the limiter refuses for [rate_limit] (its [sessionHash] a
    string or falsy) is dropped: nothing is put on the event queue or into
    the event table, no session's event count moves, and the frame is not
    counted on the connection. *)
Theorem refused_frame_is_dropped s w connectionId c message now avail retry :
  connections s !! connectionId = Some c →
  is_Some (get_prop message "sessionHash") →
  plainHash message = true →
  (RateLimiter.isAllowed (default connectionId (sessionHashOf message)) 1 now
                         (rateLimiter s)).1 = RateLimiter.DenyRateLimit avail retry →
  let r := handleMessage connectionId (Some message) now s w in
  ClickHouse.eventQueue (clickhouse r.2) = ClickHouse.eventQueue (clickhouse w)
  ∧ ClickHouse.events (clickhouse r.2) = ClickHouse.events (clickhouse w)
  ∧ (∀ h, Postgres.total_events <$> Postgres.sessions (pg r.2) !! h
          = Postgres.total_events <$> Postgres.sessions (pg w) !! h)
  ∧ (eventCount <$> connections r.1 !! connectionId) = Some (eventCount c).
Proof.
  intros Hc [v Hv] _ Hres r. subst r. unfold handleMessage. rewrite Hc, Hv.
  destruct (RateLimiter.isAllowed _ 1 now (rateLimiter s)) as [result limiter].
  simpl in Hres. subst result. cbn [fst snd].
  match goal with
  | |- context [autoThrottle ?s1 ?c2 ?hash now w] =>
      destruct (autoThrottle_frame s1 c2 hash now w) as (Hq & He & Ht)
  end.
  split_and!; [done | done | done |].
  simpl. rewrite lookup_insert_eq. simpl.
  destruct (sessionHash c); [done |]. by destruct (sessionHashOf message).
Qed.

Lemma refused_frame_is_dropped_witness :
  ClickHouse.eventQueue
    (clickhouse
       (handleMessage "c-1" (Some handshake_abcd) 500
          (setRateLimiter
             (RateLimiter.setBuckets {[ "abcd" := TokenBucket.mk 20 0 5 1000 0 ]}
                (RateLimiter.new RateLimiter.serverOptions))
             (handleConnection "c-1" "8.8.8.8" 0 new)) w_abcd).2)
  = ClickHouse.eventQueue (clickhouse w_abcd).
Proof.
  refine (proj1 (refused_frame_is_dropped
            (setRateLimiter
               (RateLimiter.setBuckets {[ "abcd" := TokenBucket.mk 20 0 5 1000 0 ]}
                  (RateLimiter.new RateLimiter.serverOptions))
               (handleConnection "c-1" "8.8.8.8" 0 new))
            w_abcd "c-1"
            (mkConnection "c-1" OPEN [FConnected "c-1" 0] "8.8.8.8" None 0 0 0)
            handshake_abcd 500 0 (Some 1000) _ _ _ _)).
  - reflexivity.
  - by eexists.
  - reflexivity.
  - vm_compute. reflexivity.
Defined.

(** A handshake whose values fit their columns (the hash in
    [VARCHAR(64)], the peer's address an [INET], the metadata as
    [Schema.metadata] says; the GeoIP columns, filled from the lookup table,
    are not modelled) never changes the mode, the latency or the counters of
    a session that already has a row: it marks the row connected (a
    terminated session that reconnects stays [terminated] and is connected
    again) with the peer's address; a session without a row gets one in mode
    [normal]. *)
Theorem handshake_keeps_mode connection message now w h :
  is_Some (get_prop message "metadata") →
  get_prop message "metadata" ≠ Some JUndefined →
  get_prop message "metadata" ≠ Some JNull →
  sessionHashOf message = Some h →
  Postgres.up (pg w) = true →
  Schema.VARCHAR 64 h = true →
  Schema.INET (ip connection) = true →
  (∀ md, get_prop message "metadata" = Some md → Schema.metadata md = true) →
  let w' := (handleHandshake connection message now w).1 in
  Postgres.sessions (pg w') !! h
    = Some (match Postgres.sessions (pg w) !! h with
            | Some row =>
                Postgres.mkSession (ip connection) true now
                  (Postgres.current_latency_ms row) (Postgres.mode row)
                  (Postgres.total_events row) (Postgres.risk_score row)
                  (Postgres.is_bot row) (Postgres.rate_limit_violations row)
            | None => Postgres.newSession (ip connection) now
            end)
  ∧ (∀ h', h' ≠ h → Postgres.sessions (pg w') !! h' = Postgres.sessions (pg w) !! h')
  ∧ Redis.published (redis w') = Redis.published (redis w).
Proof.
  intros [md Hmd] Hu Hn Hh Hup _ _ _ w'. subst w'. unfold handleHandshake.
  rewrite Hmd in *. destruct md; try done; rewrite Hh;
    unfold Postgres.upsertSession; rewrite Hup;
    unfold Redis.trackOnlineSession; cbn [setPg redis pg];
    destruct (Redis.up (redis w)); cbn [fst setRedis setPg pg redis Postgres.sessions
                                         Postgres.setSessions Redis.published];
    (split_and!; [by rewrite lookup_insert_eq; destruct (Postgres.sessions (pg w) !! h)
                 | by intros h' Hne; rewrite lookup_insert_ne | done]).
Qed.

Lemma handshake_keeps_mode_witness :
  Postgres.mode <$>
    Postgres.sessions
      (pg (handleHandshake (mkConnection "c-1" OPEN [] "8.8.8.8" None 0 0 0)
             handshake_abcd 500
             (Admin.serve None Admin.PostTerminate
                (request_abcd (Some Admin.defaultKey)) 100 w_abcd).2).1) !! "abcd"
  = Some Postgres.terminated.
Proof.
  set (w := (Admin.serve None Admin.PostTerminate _ 100 w_abcd).2).
  pose proof (handshake_keeps_mode (mkConnection "c-1" OPEN [] "8.8.8.8" None 0 0 0)
                handshake_abcd 500 w "abcd") as H.
  cbn zeta in H. destruct H as (H & _).
  - by eexists.
  - discriminate.
  - discriminate.
  - reflexivity.
  - reflexivity.
  - reflexivity.
  - reflexivity.
  - intros md [= <-]. reflexivity.
  - rewrite H. vm_compute. reflexivity.
Defined.

(** A disconnect removes the connection and no other, and marks the session
    it was bound to as disconnected without looking for other connections
    bound to the same session; the rest of the row, the other rows and an
    unbound connection's stores are left alone, and a second disconnect of
    the same connection does nothing. *)
Theorem disconnect_marks_session :
  ∀ connectionId now s w,
    let r := handleDisconnect connectionId now s w in
    connections r.1 !! connectionId = None
    ∧ (∀ other, other ≠ connectionId →
         connections r.1 !! other = connections s !! other)
    ∧ (∀ now', handleDisconnect connectionId now' r.1 r.2 = r)
    ∧ (∀ c, connections s !! connectionId = Some c → sessionHash c = None → r.2 = w)
    ∧ (∀ c h row,
         connections s !! connectionId = Some c → sessionHash c = Some h →
         Postgres.up (pg w) = true → Postgres.sessions (pg w) !! h = Some row →
         Postgres.sessions (pg r.2) !! h
           = Some (Postgres.mkSession
                     (Postgres.ip_address row) false now
                     (Postgres.current_latency_ms row) (Postgres.mode row)
                     (Postgres.total_events row) (Postgres.risk_score row)
                     (Postgres.is_bot row) (Postgres.rate_limit_violations row))
         ∧ ∀ h', h' ≠ h → Postgres.sessions (pg r.2) !! h' = Postgres.sessions (pg w) !! h').
Proof.
  intros connectionId now s w r. subst r. unfold handleDisconnect. cbn [fst snd].
  split_and!.
  - simpl. by rewrite lookup_delete_eq.
  - intros other Hne. simpl. by rewrite lookup_delete_ne.
  - intros now'. simpl. rewrite lookup_delete_eq.
    f_equal. unfold setConnections. simpl. f_equal.
    apply delete_id. by rewrite lookup_delete_eq.
  - intros c Hc Hh. by rewrite Hc, Hh.
  - intros c h row Hc Hh Hup Hrow. rewrite Hc, Hh.
    unfold Postgres.updateSessionStatus. rewrite Hup. simpl. split.
    + by rewrite lookup_alter_eq, Hrow.
    + intros h' Hne. by rewrite lookup_alter_ne.
Qed.

End ConnectionStores.

(** ** Event sink *)

Section EventSink.
Import ClickHouse.

Lemma flush_length c :
  (length (eventQueue (flush c)) <= length (eventQueue c))%nat.
Proof.
  unfold flush. destruct (eventQueue c) as [|e q] eqn:Hq; [by rewrite Hq |].
  destruct (up c); cbn [eventQueue setQueue]; [apply Nat.le_0_l |].
  rewrite length_take. apply Nat.le_min_r.
Qed.

Lemma logEvent_bounded event c c' :
  Z.of_nat (length (eventQueue c)) <= MAX_QUEUE_SIZE →
  logEvent event c = Some c' →
  Z.of_nat (length (eventQueue c')) <= MAX_QUEUE_SIZE.
Proof.
  intros Hb. unfold logEvent.
  destruct (isShuttingDown c); [by intros [= <-] |].
  destruct (Z.leb_spec MAX_QUEUE_SIZE (Z.of_nat (length (eventQueue c))));
    [by intros [= <-] |].
  destruct (validEvent event); [| done].
  assert (Hpush : Z.of_nat (length (eventQueue (setQueue (eventQueue c ++ [event]) c)))
                  <= MAX_QUEUE_SIZE).
  { simpl. rewrite length_app. simpl. lia. }
  destruct (batchSize c <=? _); intros [= <-]; [| done].
  pose proof (flush_length (setQueue (eventQueue c ++ [event]) c)). lia.
Qed.

Lemma logAll_bounded events c :
  Z.of_nat (length (eventQueue c)) <= MAX_QUEUE_SIZE →
  Z.of_nat (length (eventQueue (Beacon.logAll events c).2)) <= MAX_QUEUE_SIZE.
Proof.
  revert c. induction events as [|event rest IH]; intros c Hb; simpl; [done |].
  destruct (logEvent event c) as [c1|] eqn:Hlog; [| done].
  specialize (IH c1 (logEvent_bounded _ _ _ Hb Hlog)).
  by destruct (Beacon.logAll rest c1).
Qed.

Lemma logEvents_bounded events hash ip now c :
  Z.of_nat (length (eventQueue c)) <= MAX_QUEUE_SIZE →
  Z.of_nat (length (eventQueue (WebSocketServer.logEvents events hash ip now c).1))
    <= MAX_QUEUE_SIZE.
Proof.
  revert c. induction events as [|event rest IH]; intros c Hb; simpl; [done |].
  destruct (get_prop event "timestamp"); [| done].
  destruct (logEvent _ c) as [c1|] eqn:Hlog; [| done].
  exact (IH c1 (logEvent_bounded _ _ _ Hb Hlog)).
Qed.

(** The event queue never holds more than [MAX_QUEUE_SIZE] events: the bound
    is kept by [logEvent], by [flush] (whether the insert succeeds or not),
    by a whole beacon request and by the loop of a WebSocket batch. *)
Theorem event_queue_bounded c :
  Z.of_nat (length (eventQueue c)) <= MAX_QUEUE_SIZE →
  (∀ event c', logEvent event c = Some c' →
               Z.of_nat (length (eventQueue c')) <= MAX_QUEUE_SIZE)
  ∧ Z.of_nat (length (eventQueue (flush c))) <= MAX_QUEUE_SIZE
  ∧ (∀ body, Z.of_nat (length (eventQueue (Beacon.post body c).2)) <= MAX_QUEUE_SIZE)
  ∧ (∀ events hash ip now,
       Z.of_nat (length (eventQueue (WebSocketServer.logEvents events hash ip now c).1))
         <= MAX_QUEUE_SIZE).
Proof.
  intros Hb. split_and!.
  - intros event c'. by apply logEvent_bounded.
  - pose proof (flush_length c). lia.
  - intros body. unfold Beacon.post.
    destruct (Beacon.handler body) as [status [events|]]; [| done].
    unfold Beacon.deferred. destruct (iterate events) as [items|]; [| done].
    pose proof (logAll_bounded items c Hb).
    by destruct (Beacon.logAll items c).
  - intros. by apply logEvents_bounded.
Qed.

Lemma event_queue_bounded_witness :
  Z.of_nat (length (eventQueue (flush (clickhouse w_abcd)))) <= MAX_QUEUE_SIZE.
Proof.
  refine (proj1 (proj2 (event_queue_bounded (clickhouse w_abcd) _))).
  vm_compute. discriminate.
Defined.

(** While the store takes inserts, the sink neither loses nor repeats an
    event it accepts: the rows of the table followed by the queue grow by
    exactly that event, rows once written stay, and an event offered during
    shutdown or to a full queue is dropped without a trace.  While the store
    refuses inserts, the table does not change. *)
Theorem sink_conserves_events event c c' :
  logEvent event c = Some c' →
  (up c = true →
   events c' ++ eventQueue c'
     = events c ++ eventQueue c
       ++ (if isShuttingDown c
              || (MAX_QUEUE_SIZE <=? Z.of_nat (length (eventQueue c)))
           then [] else [event]))
  ∧ (up c = false → events c' = events c)
  ∧ (∃ rows, events c' = events c ++ rows).
Proof.
  unfold logEvent.
  destruct (isShuttingDown c) eqn:Hs.
  { intros [= <-]. simpl. rewrite app_nil_r. split_and!; [done | done |].
    exists []. by rewrite app_nil_r. }
  destruct (MAX_QUEUE_SIZE <=? _) eqn:Hfull.
  { intros [= <-]. simpl. rewrite app_nil_r. split_and!; [done | done |].
    exists []. by rewrite app_nil_r. }
  destruct (validEvent event); [| done]. simpl.
  destruct (batchSize c <=? _).
  - intros [= <-]. unfold flush. simpl.
    destruct (eventQueue c ++ [event]) as [|e q] eqn:Hq.
    { by destruct (eventQueue c). }
    destruct (up c); simpl.
    + split_and!; [intros _; by rewrite app_nil_r | done | eauto].
    + split_and!; [done | done |]. exists []. by rewrite app_nil_r.
  - intros [= <-]. simpl. split_and!; [done | done |].
    exists []. by rewrite app_nil_r.
Qed.

Lemma sink_conserves_events_witness :
  ∃ rows, events (default (clickhouse w_abcd)
                    (logEvent (JObj [("sessionHash", JStr "abcd")]) (clickhouse w_abcd)))
          = events (clickhouse w_abcd) ++ rows.
Proof.
  refine (proj2 (proj2 (sink_conserves_events (JObj [("sessionHash", JStr "abcd")])
                          (clickhouse w_abcd) _ _))).
  reflexivity.
Defined.

End EventSink.

(** ** Admin routes: validation, reads, failures and audit *)

Section AdminMore.
Import Admin.

Lemma publishAndLog_sessions request command msg w :
  Postgres.sessions (pg (publishAndLog request command msg w).2)
    = Postgres.sessions (pg w).
Proof.
  unfold publishAndLog, Redis.publish, Postgres.logCommand.
  destruct (Redis.up (redis w)); [| done]. simpl.
  destruct (Postgres.up (pg w)); [| done].
  by destruct (Postgres.sessions (pg w) !! sessionHash request).
Qed.

(** The notify and redirect routes never touch a session row, whatever the
    request and the state of the stores; and a notify without a message, or a
    redirect without a URL, is answered 400 and changes nothing at all. *)
Theorem notify_redirect_validation :
  ∀ env request now w,
    Postgres.sessions (pg (serve env PostNotify request now w).2)
      = Postgres.sessions (pg w)
    ∧ Postgres.sessions (pg (serve env PostRedirect request now w).2)
      = Postgres.sessions (pg w)
    ∧ (x_api_key request = Some (validKey env) →
       message (bodyOf request) = None ∨ message (bodyOf request) = Some "" →
       serve env PostNotify request now w
         = (mkResponse 400 (RError "Message is required"), w))
    ∧ (x_api_key request = Some (validKey env) →
       url (bodyOf request) = None ∨ url (bodyOf request) = Some "" →
       serve env PostRedirect request now w
         = (mkResponse 400 (RError "URL is required"), w)).
Proof.
  intros env request now w. split_and!.
  - unfold serve. destruct (preHandler env request); [done |].
    cbn [handler]. unfold postNotify.
    destruct (message (bodyOf request)) as [m|]; [| done].
    destruct (String.eqb m ""); [done |].
    cbn [uuidv4]. by rewrite publishAndLog_sessions.
  - unfold serve. destruct (preHandler env request); [done |].
    cbn [handler]. unfold postRedirect.
    destruct (url (bodyOf request)) as [u|]; [| done].
    destruct (String.eqb u ""); [done |].
    cbn [uuidv4]. by rewrite publishAndLog_sessions.
  - intros Hkey Hmsg. rewrite serve_authorized by done. cbn [handler].
    unfold postNotify. by destruct Hmsg as [-> | ->].
  - intros Hkey Hurl. rewrite serve_authorized by done. cbn [handler].
    unfold postRedirect. by destruct Hurl as [-> | ->].
Qed.

(** The read routes write nothing: listing sessions, reading one session,
    the analytics and the high-risk list return the stores as they were, and
    the statistics route changes only the set of online sessions, which it
    can only shrink. *)
Lemma read_routes_write_nothing :
  ∀ env request now w,
    (serve env GetSessions request now w).2 = w
    ∧ (serve env GetSession request now w).2 = w
    ∧ (serve env GetAnalytics request now w).2 = w
    ∧ (serve env GetHighRisk request now w).2 = w
    ∧ pg (serve env GetStats request now w).2 = pg w
    ∧ clickhouse (serve env GetStats request now w).2 = clickhouse w
    ∧ Redis.published (redis (serve env GetStats request now w).2)
      = Redis.published (redis w)
    ∧ (∀ h t, Redis.online (redis (serve env GetStats request now w).2) !! h = Some t →
              Redis.online (redis w) !! h = Some t).
Proof.
  intros env request now w. unfold serve.
  destruct (preHandler env request); [by split_and! |].
  cbn [handler]. split_and!; try reflexivity.
  - unfold getSession. by destruct (Postgres.getSession _ _).
  - unfold getStats, Redis.getOnlineSessions. by destruct (Redis.up (redis w)).
  - unfold getStats, Redis.getOnlineSessions. by destruct (Redis.up (redis w)).
  - unfold getStats, Redis.getOnlineSessions. by destruct (Redis.up (redis w)).
  - intros h t. unfold getStats, Redis.getOnlineSessions.
    destruct (Redis.up (redis w)); [| done]. simpl.
    intros H. by apply map_lookup_filter_Some in H as [? _].
Qed.



Lemma alter_absent {A} (f : A → A) (m : gmap string A) (h : string) :
  m !! h = None → alter f h m = m.
Proof.
  intros Hnone. apply map_eq. intros h'.
  destruct (decide (h = h')) as [<-|Hne].
  - by rewrite lookup_alter_eq, Hnone.
  - by rewrite lookup_alter_ne.
Qed.

(** With both stores answering and values that fit their columns (the
    latency of a downspin an [INTEGER], the reason of a terminate free of NUL,
    the session hash, [admin_id] and [admin_ip] as [Schema.audit] says), a
    mode route is answered 200 and publishes its command whether or not the
    session exists; the audit row is written exactly when the session store
    knows the session, and for an unknown session the store is left as it
    was: no row is created. *)
Theorem audit_row_needs_known_session env route request now w :
  route = PostUpspin ∨ route = PostDownspin ∨ route = PostTerminate →
  x_api_key request = Some (validKey env) →
  Postgres.up (pg w) = true →
  Redis.up (redis w) = true →
  Schema.audit request = true →
  Schema.INTEGER (default 2000 (latency_ms (bodyOf request))) = true →
  Schema.TEXT (default "Session terminated by administrator"
                       (reason (bodyOf request))) = true →
  let r := serve env route request now w in
  status r.1 = 200
  ∧ length (Redis.published (redis r.2)) = S (length (Redis.published (redis w)))
  ∧ match Postgres.sessions (pg w) !! sessionHash request with
    | Some _ =>
        ∃ row, Postgres.command_history (pg r.2)
                 = Postgres.command_history (pg w) ++ [row]
               ∧ Postgres.session_hash row = sessionHash request
               ∧ Postgres.command_id row = Some (next_uuid w)
               ∧ Postgres.status row = Postgres.pending
               ∧ Postgres.admin_id row = str_or (x_admin_id request) "api"
    | None => pg r.2 = pg w
    end.
Proof.
  intros Hroute Hkey Hpg Hredis _ _ _ r. subst r.
  rewrite serve_authorized by done.
  assert (H : ∀ m latency ty p msg,
             let r := modeRoute request m latency ty p msg w in
             status r.1 = 200
             ∧ length (Redis.published (redis r.2))
               = S (length (Redis.published (redis w)))
             ∧ match Postgres.sessions (pg w) !! sessionHash request with
               | Some _ =>
                   ∃ row, Postgres.command_history (pg r.2)
                            = Postgres.command_history (pg w) ++ [row]
                          ∧ Postgres.session_hash row = sessionHash request
                          ∧ Postgres.command_id row = Some (next_uuid w)
                          ∧ Postgres.status row = Postgres.pending
                          ∧ Postgres.admin_id row = str_or (x_admin_id request) "api"
               | None => pg r.2 = pg w
               end).
  { intros m latency ty p msg. unfold modeRoute, Postgres.updateSessionMode.
    rewrite Hpg. cbn [uuidv4 setPg pg redis clickhouse next_uuid].
    unfold publishAndLog, Redis.publish. cbn [redis]. rewrite Hredis.
    unfold Postgres.logCommand. simpl. rewrite Hpg.
    destruct (Postgres.sessions (pg w) !! sessionHash request) as [row|] eqn:Hrow.
    - rewrite lookup_alter_eq, Hrow. simpl.
      split_and!; [done | rewrite length_app; simpl; lia |].
      eexists. split_and!; done.
    - rewrite lookup_alter_eq, Hrow. simpl.
      split_and!; [done | rewrite length_app; simpl; lia |].
      rewrite alter_absent by done. by destruct (pg w). }
  destruct Hroute as [-> | [-> | ->]]; cbn [handler];
    unfold postUpspin, postDownspin, postTerminate; apply H.
Qed.

Lemma audit_row_needs_known_session_witness :
  status (serve None PostUpspin
            (mkRequest (Some defaultKey) None "10.0.0.1" "nobody" None None None)
            0 w_abcd).1 = 200.
Proof.
  refine (proj1 (audit_row_needs_known_session None PostUpspin
            (mkRequest (Some defaultKey) None "10.0.0.1" "nobody" None None None)
            0 w_abcd _ _ _ _ _ _ _)).
  - auto.
  - reflexivity.
  - reflexivity.
  - reflexivity.
  - reflexivity.
  - reflexivity.
  - reflexivity.
Defined.

Lemma batchLoop_skip act b hashes results w :
  batchCommand act b = None →
  batchLoop act b hashes results w = (inr results, w).
Proof. intros Hnone. induction hashes as [|h rest IH]; simpl; [done |]. by rewrite Hnone. Qed.

(** A batch whose action is none of [upspin], [downspin] and [terminate] is
    answered 200 with no session affected, and changes nothing. *)
Theorem batch_unknown_action_is_noop env request now w act hashes :
  x_api_key request = Some (validKey env) →
  action (bodyOf request) = Some act →
  act ≠ "" →
  sessionHashes (bodyOf request) = Some hashes →
  batchCommand act (bodyOf request) = None →
  serve env PostBatchAction request now w = (ok (RBatch act 0 []), w).
Proof.
  intros Hkey Hact Hne Hhashes Hnone. rewrite serve_authorized by done.
  cbn [handler]. unfold postBatchAction. rewrite Hact, Hhashes.
  destruct (String.eqb_spec act ""); [done |].
  by rewrite batchLoop_skip.
Qed.

Lemma batch_unknown_action_is_noop_witness :
  serve None PostBatchAction
    (mkRequest (Some defaultKey) None "10.0.0.1" "" None None
       (Some (mkBody None None None None None None None (Some "pause")
                (Some ["abcd"]) None None)))
    0 w_abcd
  = (ok (RBatch "pause" 0 []), w_abcd).
Proof.
  apply (batch_unknown_action_is_noop None _ 0 w_abcd "pause" ["abcd"]);
    try reflexivity. discriminate.
Defined.

Lemma batchLoop_applies act b m latency ty p hashes :
  batchCommand act b = Some (m, latency, ty, p) →
  ∀ acc w,
    Postgres.up (pg w) = true → Redis.up (redis w) = true →
    ∃ results,
      (batchLoop act b hashes acc w).1 = inr (acc ++ results)
      ∧ results.*1 = hashes
      ∧ Forall (fun rc : string * Command =>
                  cmd_type rc.2 = ty ∧ cmd_payload rc.2 = p) results
      ∧ Redis.published (redis (batchLoop act b hashes acc w).2)
        = Redis.published (redis w) ++ results
      ∧ Postgres.command_history (pg (batchLoop act b hashes acc w).2)
        = Postgres.command_history (pg w)
      ∧ (∀ h, h ∈ hashes →
              Postgres.mode <$> Postgres.sessions (pg (batchLoop act b hashes acc w).2) !! h
              = (fun _ => m) <$> Postgres.sessions (pg w) !! h)
      ∧ (∀ h, h ∉ hashes →
              Postgres.sessions (pg (batchLoop act b hashes acc w).2) !! h
              = Postgres.sessions (pg w) !! h).
Proof.
  intros Hcmd. induction hashes as [|hash rest IH]; intros acc w Hpg Hredis.
  - exists []. simpl. rewrite !app_nil_r. split_and!; try done.
    intros h Hin. by apply elem_of_nil in Hin.
  - cbn [batchLoop]. rewrite Hcmd. unfold Postgres.updateSessionMode. rewrite Hpg.
    cbn [uuidv4 setPg pg redis clickhouse next_uuid]. unfold Redis.publish.
    rewrite Hredis.
    match goal with
    | |- context [batchLoop act b rest ?acc' ?w'] =>
        destruct (IH acc' w') as (results & Hres & Hfst & Hall & Hpub & Hhist & Hin & Hout);
          [done | done |]
    end.
    eexists (_ :: results). split_and!.
    + rewrite Hres. by rewrite <- app_assoc.
    + by rewrite fmap_cons, Hfst.
    + constructor; [done | exact Hall].
    + rewrite Hpub. simpl. by rewrite <- app_assoc.
    + rewrite Hhist. done.
    + intros h Hh. destruct (decide (h ∈ rest)) as [Hr | Hr].
      * rewrite Hin by done. simpl.
        destruct (decide (hash = h)) as [->|Hne].
        -- rewrite lookup_alter_eq. by destruct (Postgres.sessions (pg w) !! h).
        -- by rewrite lookup_alter_ne.
      * rewrite Hout by done. simpl.
        apply elem_of_cons in Hh as [-> | ?]; [| done].
        rewrite lookup_alter_eq. by destruct (Postgres.sessions (pg w) !! hash).
    + intros h Hh. apply not_elem_of_cons in Hh as [Hne Hr].
      rewrite Hout by done. simpl. by rewrite lookup_alter_ne.
Qed.

(** With both stores answering, a latency that is an [INTEGER] and session
    hashes free of NUL, a batch applies its action to every listed session,
    in the order listed: one command envelope of the action's type is
    published per entry, every listed session the store knows ends in the
    action's mode, the other sessions are left alone, and the answer counts
    all entries.  No audit row is written for a batch. *)
Theorem batch_applies_to_every_hash env request now w act hashes m latency ty p :
  x_api_key request = Some (validKey env) →
  action (bodyOf request) = Some act →
  sessionHashes (bodyOf request) = Some hashes →
  batchCommand act (bodyOf request) = Some (m, latency, ty, p) →
  Postgres.up (pg w) = true →
  Redis.up (redis w) = true →
  Schema.INTEGER latency = true →
  Forall (fun h => Schema.TEXT h = true) hashes →
  let r := serve env PostBatchAction request now w in
  ∃ results,
    r.1 = ok (RBatch act (Z.of_nat (length hashes)) results)
    ∧ results.*1 = hashes
    ∧ Forall (fun rc : string * Command => cmd_type rc.2 = ty ∧ cmd_payload rc.2 = p)
             results
    ∧ Redis.published (redis r.2) = Redis.published (redis w) ++ results
    ∧ Postgres.command_history (pg r.2) = Postgres.command_history (pg w)
    ∧ (∀ h, h ∈ hashes →
            Postgres.mode <$> Postgres.sessions (pg r.2) !! h
            = (fun _ => m) <$> Postgres.sessions (pg w) !! h)
    ∧ (∀ h, h ∉ hashes →
            Postgres.sessions (pg r.2) !! h = Postgres.sessions (pg w) !! h).
Proof.
  intros Hkey Hact Hhashes Hcmd Hpg Hredis _ _ r. subst r.
  rewrite serve_authorized by done. cbn [handler]. unfold postBatchAction.
  rewrite Hact, Hhashes.
  assert (Hne : String.eqb act "" = false).
  { destruct (String.eqb_spec act "") as [->|]; [| done]. discriminate Hcmd. }
  rewrite Hne.
  destruct (batchLoop_applies act (bodyOf request) m latency ty p hashes Hcmd [] w Hpg Hredis)
    as (results & Hres & Hfst & Hall & Hpub & Hhist & Hin & Hout).
  destruct (batchLoop act (bodyOf request) hashes [] w) as [[msg|rs] w1];
    simpl in *; [done |].
  injection Hres as ->. exists results.
  split_and!; try done.
  do 3 f_equal. rewrite <- Hfst. by rewrite length_fmap.
Qed.

Lemma batch_applies_to_every_hash_witness :
  ∃ results,
    (serve None PostBatchAction
       (mkRequest (Some defaultKey) None "10.0.0.1" "" None None
          (Some (mkBody None None None None None None None (Some "terminate")
                   (Some ["abcd"; "efgh"]) None None)))
       0 w_abcd).1
    = ok (RBatch "terminate" 2 results).
Proof.
  destruct (batch_applies_to_every_hash None
              (mkRequest (Some defaultKey) None "10.0.0.1" "" None None
                 (Some (mkBody None None None None None None None (Some "terminate")
                          (Some ["abcd"; "efgh"]) None None)))
              0 w_abcd "terminate" ["abcd"; "efgh"] Postgres.terminated 0 TERMINATE
              (PReason "Batch termination"))
    as (results & H & _); try reflexivity.
  { repeat constructor. }
  by exists results.
Defined.

End AdminMore.

(** ** The mode invariant *)

Section ModeInvariant.

Lemma inv_alter f h p :
  (∀ row, row_ok row → row_ok (f row)) →
  mode_invariant p →
  mode_invariant (Postgres.setSessions (alter f h (Postgres.sessions p)) p).
Proof.
  intros Hf Hp h' row. simpl. destruct (decide (h = h')) as [<-|Hne].
  - rewrite lookup_alter_eq. destruct (Postgres.sessions p !! h) as [r0|] eqn:Hr; [| done].
    intros [= <-]. apply Hf. exact (Hp h r0 Hr).
  - rewrite lookup_alter_ne by done. apply Hp.
Qed.

Lemma inv_same_sessions p p' :
  Postgres.sessions p' = Postgres.sessions p → mode_invariant p → mode_invariant p'.
Proof. intros Heq Hp h row. rewrite Heq. apply Hp. Qed.

Lemma inv_upsertSession h ip now p :
  mode_invariant p → mode_invariant (Postgres.upsertSession h ip now p).
Proof.
  intros Hp. unfold Postgres.upsertSession. destruct (Postgres.up p); [| done].
  intros h' row. simpl. destruct (decide (h = h')) as [<-|Hne].
  - rewrite lookup_insert_eq. intros [= <-].
    destruct (Postgres.sessions p !! h) as [r0|] eqn:Hr; [| done].
    exact (Hp h r0 Hr).
  - rewrite lookup_insert_ne by done. apply Hp.
Qed.

Lemma inv_updateSessionStatus h c now p :
  mode_invariant p → mode_invariant (Postgres.updateSessionStatus h c now p).
Proof.
  intros Hp. unfold Postgres.updateSessionStatus. destruct (Postgres.up p); [| done].
  by apply inv_alter.
Qed.

Lemma inv_incrementEventCount h n now p :
  mode_invariant p → mode_invariant (Postgres.incrementEventCount h n now p).
Proof.
  intros Hp. unfold Postgres.incrementEventCount. destruct (Postgres.up p); [| done].
  by apply inv_alter.
Qed.

Lemma inv_updateRiskScore h score bot p :
  mode_invariant p → mode_invariant (Postgres.updateRiskScore h score bot p).
Proof.
  intros Hp. unfold Postgres.updateRiskScore. destruct (Postgres.up p); [| done].
  by apply inv_alter.
Qed.

Lemma inv_incrementViolations h p :
  mode_invariant p → mode_invariant (Postgres.incrementViolations h p).
Proof.
  intros Hp. unfold Postgres.incrementViolations. destruct (Postgres.up p); [| done].
  by apply inv_alter.
Qed.

Lemma inv_updateCommandStatus cid st now p :
  mode_invariant p → mode_invariant (Postgres.updateCommandStatus cid st now p).
Proof.
  intros Hp. unfold Postgres.updateCommandStatus. by destruct (Postgres.up p).
Qed.

Lemma inv_updateSessionMode h m latency p p' :
  (m = Postgres.upspin → latency = 0) →
  Postgres.updateSessionMode h m latency p = Some p' →
  mode_invariant p → mode_invariant p'.
Proof.
  intros Hm. unfold Postgres.updateSessionMode. destruct (Postgres.up p); [| done].
  intros [= <-] Hp. apply inv_alter; [| done]. intros row _. exact Hm.
Qed.

Lemma inv_logCommand row p p' :
  Postgres.logCommand row p = Some p' → mode_invariant p → mode_invariant p'.
Proof.
  unfold Postgres.logCommand. destruct (Postgres.up p); [| done].
  destruct (Postgres.sessions p !! _); by intros [= <-].
Qed.

Lemma inv_publishAndLog request command msg w :
  mode_invariant (pg w) →
  mode_invariant (pg (Admin.publishAndLog request command msg w).2).
Proof.
  intros Hw. eapply inv_same_sessions; [| exact Hw].
  apply publishAndLog_sessions.
Qed.

Lemma inv_modeRoute request m latency ty p msg w :
  (m = Postgres.upspin → latency = 0) →
  mode_invariant (pg w) →
  mode_invariant (pg (Admin.modeRoute request m latency ty p msg w).2).
Proof.
  intros Hm Hw. unfold Admin.modeRoute.
  destruct (Postgres.updateSessionMode _ m latency (pg w)) as [p1|] eqn:Hup; [| done].
  cbn [uuidv4 setPg pg redis clickhouse next_uuid].
  apply inv_publishAndLog. simpl. by eapply inv_updateSessionMode.
Qed.

Lemma batchCommand_ok act b m latency ty p :
  Admin.batchCommand act b = Some (m, latency, ty, p) →
  m = Postgres.upspin → latency = 0.
Proof.
  unfold Admin.batchCommand.
  destruct (String.eqb act "upspin"); [by intros [= <- <- <- <-] |].
  destruct (String.eqb act "downspin"); [by intros [= <- <- <- <-] |].
  destruct (String.eqb act "terminate"); [by intros [= <- <- <- <-] | done].
Qed.

Lemma inv_batchLoop act b hashes results w :
  mode_invariant (pg w) →
  mode_invariant (pg (Admin.batchLoop act b hashes results w).2).
Proof.
  revert results w. induction hashes as [|hash rest IH]; intros results w Hw; [done |].
  cbn [Admin.batchLoop].
  destruct (Admin.batchCommand act b) as [[[[m latency] ty] p]|] eqn:Hcmd; [| by apply IH].
  destruct (Postgres.updateSessionMode hash m latency (pg w)) as [p1|] eqn:Hup; [| done].
  cbn [uuidv4 setPg pg redis clickhouse next_uuid].
  assert (Hp1 : mode_invariant p1).
  { eapply inv_updateSessionMode; [| exact Hup | exact Hw]. by eapply batchCommand_ok. }
  destruct (Redis.publish _ _ _) as [r1|]; [| done].
  by apply IH.
Qed.

Lemma inv_admin_handler route request now w :
  mode_invariant (pg w) →
  mode_invariant (pg (Admin.handler route request now w).2).
Proof.
  intros Hw. destruct route; cbn [Admin.handler].
  - done.
  - unfold Admin.getSession. by destruct (Postgres.getSession _ _).
  - by apply inv_modeRoute.
  - by apply inv_modeRoute.
  - by apply inv_modeRoute.
  - unfold Admin.postNotify. destruct (Admin.message _) as [m|]; [| done].
    destruct (String.eqb m ""); [done |]. cbn [uuidv4]. by apply inv_publishAndLog.
  - unfold Admin.postRedirect. destruct (Admin.url _) as [u|]; [| done].
    destruct (String.eqb u ""); [done |]. cbn [uuidv4]. by apply inv_publishAndLog.
  - done.
  - unfold Admin.getStats. by destruct (Redis.getOnlineSessions _ _) as [[? ?]|].
  - done.
  - unfold Admin.postBatchAction.
    destruct (Admin.action _) as [act|]; [| done].
    destruct (Admin.sessionHashes _) as [hashes|]; [| done].
    destruct (String.eqb act ""); [done |].
    pose proof (inv_batchLoop act (Admin.bodyOf request) hashes [] w Hw) as H.
    by destruct (Admin.batchLoop _ _ _ _ _) as [[?|?] ?].
Qed.

Lemma inv_route s connection message now w :
  mode_invariant (pg w) →
  mode_invariant (pg (WebSocketServer.route s connection message now w).1).
Proof.
  intros Hw. unfold WebSocketServer.route.
  destruct (get_prop message "type") as [[| | | |ty| |]|]; try done.
  destruct (String.eqb ty "handshake").
  { unfold WebSocketServer.handleHandshake.
    destruct (get_prop message "metadata") as [[| | | | | |]|]; try done;
      (destruct (WebSocketServer.sessionHashOf message) as [h|]; [| done]);
      (destruct (Redis.trackOnlineSession _ _ _); simpl; by apply inv_upsertSession). }
  destruct (String.eqb ty "batch").
  { unfold WebSocketServer.handleBatchEvents.
    destruct (get_prop message "events") as [[| | | | |events|]|]; try done.
    destruct (WebSocketServer.logEvents _ _ _ _ _) as [c1 fine].
    destruct fine; [| done].
    destruct (WebSocketServer.sessionHashOf message) as [h|]; [| done].
    destruct (RateLimiter.getViolationStats _ _ _); simpl;
      [apply inv_updateRiskScore |]; by apply inv_incrementEventCount. }
  destruct (String.eqb ty "interaction" || String.eqb ty "event").
  { unfold WebSocketServer.handleEvent.
    destruct (WebSocketServer.logEvents _ _ _ _ _) as [c1 fine].
    destruct fine; [| done].
    destruct (WebSocketServer.hash_or _ _); [| done].
    simpl. by apply inv_incrementEventCount. }
  destruct (String.eqb ty "pong"); [done |].
  destruct (String.eqb ty "command_ack"); [| done].
  unfold WebSocketServer.handleCommandAck.
  destruct (get_prop message "result") as [result|]; [| done].
  destruct (get_prop result "error"); [| done].
  simpl. by apply inv_updateCommandStatus.
Qed.

Lemma inv_autoThrottle s c hash now w :
  mode_invariant (pg w) →
  mode_invariant (pg (WebSocketServer.autoThrottle s c hash now w)).
Proof.
  intros Hw. unfold WebSocketServer.autoThrottle. destruct hash as [h|]; [| done].
  destruct (RateLimiter.getViolationStats _ _ _) as [stats|]; [| done].
  destruct (RateLimiter.shouldThrottle stats); [| done].
  unfold WebSocketServer.sendThrottleCommand. cbn [uuidv4 redis].
  destruct (Redis.publish _ _ _) as [r1|]; [| done].
  cbn [setRedis pg].
  destruct (Postgres.updateSessionMode _ _ _ (pg w)) as [p1|] eqn:Hup; [| done].
  simpl. apply inv_incrementViolations.
  by eapply inv_updateSessionMode; [| exact Hup | exact Hw].
Qed.

(** The mode invariant of the session store, "a session in mode [upspin]
    has latency 0", is kept by every request to an admin route, authorized or
    not and whatever the stores answer, by every frame the connection handler
    processes, and by every disconnect. *)
Theorem mode_invariant_kept w :
  mode_invariant (pg w) →
  (∀ env route request now,
     mode_invariant (pg (Admin.serve env route request now w).2))
  ∧ (∀ connectionId data now s,
       mode_invariant (pg (WebSocketServer.handleMessage connectionId data now s w).2))
  ∧ (∀ connectionId now s,
       mode_invariant (pg (WebSocketServer.handleDisconnect connectionId now s w).2)).
Proof.
  intros Hw. split_and!.
  - intros env route request now. unfold Admin.serve.
    destruct (Admin.preHandler env request); [done |]. by apply inv_admin_handler.
  - intros connectionId data now s. unfold WebSocketServer.handleMessage.
    destruct (WebSocketServer.connections s !! connectionId) as [c|]; [| done].
    destruct data as [message|]; [| done].
    destruct (get_prop message "sessionHash"); [| done].
    destruct (RateLimiter.isAllowed _ 1 now _) as [result limiter].
    destruct result.
    + match goal with
      | |- context [WebSocketServer.route ?s1 ?c2 message now w] =>
          pose proof (inv_route s1 c2 message now w Hw) as H;
          destruct (WebSocketServer.route s1 c2 message now w) as [w1 fine]
      end. done.
    + done.
    + simpl. by apply inv_autoThrottle.
  - intros connectionId now s. unfold WebSocketServer.handleDisconnect. cbn [snd].
    destruct (WebSocketServer.connections s !! connectionId) as [c|]; [| done].
    destruct (WebSocketServer.sessionHash c); [| done].
    simpl. by apply inv_updateSessionStatus.
Qed.

Lemma mode_invariant_kept_witness :
  mode_invariant
    (pg (Admin.serve None Admin.PostUpspin (request_abcd (Some Admin.defaultKey)) 0
           w_abcd).2).
Proof.
  refine (proj1 (mode_invariant_kept w_abcd _) None Admin.PostUpspin
            (request_abcd (Some Admin.defaultKey)) 0).
  intros h row. simpl. destruct (decide (h = "abcd")) as [->|Hne].
  - rewrite lookup_singleton_eq. by intros [= <-].
  - by rewrite lookup_singleton_ne.
Defined.

End ModeInvariant.

(** ** The IPv4 conversion *)

Section IpConversion.
Import Stdlib.Strings.Ascii IpToInt.

Lemma octets_check : forallb octet_check (map Z.of_nat (seq 0 256)) = true.
Proof. vm_compute. reflexivity. Qed.

Lemma octet_ok a : 0 <= a <= 255 → octet_check a = true.
Proof.
  intros Ha. pose proof octets_check as H. rewrite forallb_forall in H. apply H.
  replace a with (Z.of_nat (Z.to_nat a)) by lia.
  apply in_map, in_seq. lia.
Qed.

Lemma list_ascii_of_string_app s t :
  list_ascii_of_string (s +:+ t) = list_ascii_of_string s ++ list_ascii_of_string t.
Proof. induction s as [|a s IH]; simpl; [done | by rewrite IH]. Qed.

Lemma split_dots_piece p :
  forallb (fun c => negb (is_dot c)) p = true → split_dots p = [p].
Proof.
  induction p as [|a p IH]; [done |]. simpl. intros [Ha Hp]%andb_true_iff.
  apply negb_true_iff in Ha. by rewrite Ha, IH.
Qed.

Lemma split_dots_app p rest :
  forallb (fun c => negb (is_dot c)) p = true →
  split_dots (p ++ "."%char :: rest) = p :: split_dots rest.
Proof.
  induction p as [|a p IH]; [done |]. simpl. intros [Ha Hp]%andb_true_iff.
  apply negb_true_iff in Ha. by rewrite Ha, IH.
Qed.

Lemma ToUint32_ToInt32 z : ToUint32 (ToInt32 z) = ToUint32 z.
Proof.
  unfold ToUint32, ToInt32. change (2 ^ 32) with 4294967296. change (2 ^ 31) with 2147483648.
  Z.div_mod_to_equations. lia.
Qed.

Lemma ToUint32_js_or x y : ToUint32 (js_or x y) = Z.lor (ToUint32 x) (ToUint32 y).
Proof.
  unfold js_or. rewrite ToUint32_ToInt32. unfold ToUint32 at 1.
  rewrite <- Z.land_ones by lia. rewrite Z.land_lor_distr_l, !Z.land_ones by lia.
  fold (ToUint32 (ToInt32 x)). fold (ToUint32 (ToInt32 y)).
  by rewrite !ToUint32_ToInt32.
Qed.

Lemma ToUint32_js_shl p n :
  0 <= p <= 255 → 0 <= n <= 24 → ToUint32 (js_shl p n) = p * 2 ^ n.
Proof.
  intros Hp Hn. unfold js_shl. rewrite ToUint32_ToInt32.
  assert (Hp' : ToInt32 p = p).
  { unfold ToInt32. change (2 ^ 32) with 4294967296. change (2 ^ 31) with 2147483648.
    Z.div_mod_to_equations. lia. }
  assert (Hn' : ToUint32 n mod 32 = n).
  { unfold ToUint32. change (2 ^ 32) with 4294967296. Z.div_mod_to_equations. lia. }
  rewrite Hp', Hn', Z.shiftl_mul_pow2 by lia. unfold ToUint32.
  apply Z.mod_small.
  assert (2 ^ n <= 2 ^ 24) by (apply Z.pow_le_mono_r; lia).
  assert (0 < 2 ^ n) by (apply Z.pow_pos_nonneg; lia).
  change (2 ^ 24) with 16777216 in *. change (2 ^ 32) with 4294967296. nia.
Qed.

Lemma lor_disjoint x y k :
  0 <= k → 0 <= y < 2 ^ k → Z.lor (x * 2 ^ k) y = x * 2 ^ k + y.
Proof.
  intros Hk Hy.
  assert (Hland : Z.land (x * 2 ^ k) y = 0).
  { apply Z.bits_inj'. intros n Hn. rewrite Z.land_spec, Z.bits_0.
    destruct (Z.lt_ge_cases n k) as [Hlt | Hge].
    - by rewrite Z.mul_pow2_bits_low.
    - rewrite <- (Z.mod_small y (2 ^ k)) by lia.
      rewrite Z.mod_pow2_bits_high by lia. apply andb_false_r. }
  by rewrite <- Z.lxor_lor, <- Z.add_nocarry_lxor.
Qed.

Local Ltac pow_num :=
  change (2 ^ 8) with 256 in *; change (2 ^ 16) with 65536 in *;
  change (2 ^ 24) with 16777216 in *; change (2 ^ 32) with 4294967296 in *.

Lemma pack_octets a b c d :
  0 <= a <= 255 → 0 <= b <= 255 → 0 <= c <= 255 → 0 <= d <= 255 →
  js_ushr (js_or (js_or (js_or (js_shl a 24) (js_shl b 16)) (js_shl c 8)) d) 0
  = a * 2 ^ 24 + b * 2 ^ 16 + c * 2 ^ 8 + d.
Proof.
  intros Ha Hb Hc Hd. unfold js_ushr.
  change (ToUint32 0 mod 32) with 0. rewrite Z.shiftr_0_r.
  rewrite !ToUint32_js_or, !ToUint32_js_shl by lia.
  assert (Hd' : ToUint32 d = d).
  { unfold ToUint32. apply Z.mod_small. pow_num. lia. }
  rewrite Hd'.
  rewrite (lor_disjoint a (b * 2 ^ 16) 24) by (pow_num; lia).
  replace (a * 2 ^ 24 + b * 2 ^ 16) with ((a * 256 + b) * 2 ^ 16) by (pow_num; lia).
  rewrite (lor_disjoint _ (c * 2 ^ 8) 16) by (pow_num; lia).
  replace ((a * 256 + b) * 2 ^ 16 + c * 2 ^ 8) with ((a * 65536 + b * 256 + c) * 2 ^ 8)
    by (pow_num; lia).
  rewrite (lor_disjoint _ d 8) by (pow_num; lia).
  pow_num. lia.
Qed.

Lemma ipToInt_groups ip pa pb pc pd :
  split_dots (list_ascii_of_string ip) = [pa; pb; pc; pd] →
  octet_text pa = true → octet_text pb = true →
  octet_text pc = true → octet_text pd = true →
  0 <= Number pa <= 255 → 0 <= Number pb <= 255 →
  0 <= Number pc <= 255 → 0 <= Number pd <= 255 →
  ipToInt ip = Number pa * 2 ^ 24 + Number pb * 2 ^ 16 + Number pc * 2 ^ 8 + Number pd.
Proof.
  intros Hsplit Ta Tb Tc Td Ha Hb Hc Hd. unfold ipToInt.
  destruct (String.eqb ip "" || String.eqb ip "0.0.0.0") eqn:E.
  - apply orb_true_iff in E as [E | E]; apply String.eqb_eq in E; subst ip.
    + discriminate Hsplit.
    + injection Hsplit as <- <- <- <-. reflexivity.
  - unfold ipv4Regex. rewrite Hsplit. cbn [forallb]. rewrite Ta, Tb, Tc, Td.
    cbn [andb map existsb].
    replace (Number pa <? 0) with false by (symmetry; apply Z.ltb_ge; lia).
    replace (Number pb <? 0) with false by (symmetry; apply Z.ltb_ge; lia).
    replace (Number pc <? 0) with false by (symmetry; apply Z.ltb_ge; lia).
    replace (Number pd <? 0) with false by (symmetry; apply Z.ltb_ge; lia).
    replace (255 <? Number pa) with false by (symmetry; apply Z.ltb_ge; lia).
    replace (255 <? Number pb) with false by (symmetry; apply Z.ltb_ge; lia).
    replace (255 <? Number pc) with false by (symmetry; apply Z.ltb_ge; lia).
    replace (255 <? Number pd) with false by (symmetry; apply Z.ltb_ge; lia).
    cbn [orb]. by apply pack_octets.
Qed.

Lemma split_dots_dotted a b c d :
  0 <= a <= 255 → 0 <= b <= 255 → 0 <= c <= 255 → 0 <= d <= 255 →
  split_dots (list_ascii_of_string (dotted a b c d))
  = [list_ascii_of_string (pretty a); list_ascii_of_string (pretty b);
     list_ascii_of_string (pretty c); list_ascii_of_string (pretty d)].
Proof.
  intros Ha%octet_ok Hb%octet_ok Hc%octet_ok Hd%octet_ok. unfold octet_check in *.
  apply andb_true_iff in Ha as [_ Ha], Hb as [_ Hb], Hc as [_ Hc], Hd as [_ Hd].
  unfold dotted. rewrite !list_ascii_of_string_app.
  change (list_ascii_of_string ".") with ["."%char].
  rewrite <- ?app_assoc. cbn [app].
  rewrite !split_dots_app by done. by rewrite split_dots_piece.
Qed.

Lemma ipToInt_range ip : 0 <= ipToInt ip < 2 ^ 32.
Proof.
  unfold ipToInt. destruct (_ || _); [done |].
  destruct (ipv4Regex ip) as [groups|]; [| done].
  destruct (existsb _ _); [done |].
  destruct (map Number groups) as [|p0 [|p1 [|p2 [|p3 [|]]]]]; try done.
  unfold js_ushr. change (ToUint32 0 mod 32) with 0. rewrite Z.shiftr_0_r.
  unfold ToUint32. apply Z.mod_pos_bound. done.
Qed.

(** An IPv4 address written as four decimal octets is converted to the
    number that has these octets as its bytes, most significant first; the
    conversion is therefore one-to-one on such addresses, and whatever the
    input the result is an unsigned 32-bit number.  The signed intermediate
    value of [(a << 24)] for [a >= 128] does not show in the result. *)
Theorem ipToInt_packs_octets a b c d :
  0 <= a <= 255 → 0 <= b <= 255 → 0 <= c <= 255 → 0 <= d <= 255 →
  ipToInt (dotted a b c d) = a * 2 ^ 24 + b * 2 ^ 16 + c * 2 ^ 8 + d
  ∧ (∀ a' b' c' d',
       0 <= a' <= 255 → 0 <= b' <= 255 → 0 <= c' <= 255 → 0 <= d' <= 255 →
       ipToInt (dotted a' b' c' d') = ipToInt (dotted a b c d) →
       (a', b', c', d') = (a, b, c, d))
  ∧ (∀ ip, 0 <= ipToInt ip < 2 ^ 32).
Proof.
  assert (Hval : ∀ a b c d,
            0 <= a <= 255 → 0 <= b <= 255 → 0 <= c <= 255 → 0 <= d <= 255 →
            ipToInt (dotted a b c d) = a * 2 ^ 24 + b * 2 ^ 16 + c * 2 ^ 8 + d).
  { clear. intros a b c d Ha Hb Hc Hd.
    pose proof (octet_ok a Ha) as Oa. pose proof (octet_ok b Hb) as Ob.
    pose proof (octet_ok c Hc) as Oc. pose proof (octet_ok d Hd) as Od.
    unfold octet_check in *.
    apply andb_true_iff in Oa as [[Ta Na%Z.eqb_eq]%andb_true_iff _].
    apply andb_true_iff in Ob as [[Tb Nb%Z.eqb_eq]%andb_true_iff _].
    apply andb_true_iff in Oc as [[Tc Nc%Z.eqb_eq]%andb_true_iff _].
    apply andb_true_iff in Od as [[Td Nd%Z.eqb_eq]%andb_true_iff _].
    rewrite (ipToInt_groups _ _ _ _ _ (split_dots_dotted a b c d Ha Hb Hc Hd))
      by (done || lia).
    by rewrite Na, Nb, Nc, Nd. }
  intros Ha Hb Hc Hd. split_and!.
  - by apply Hval.
  - intros a' b' c' d' Ha' Hb' Hc' Hd'. rewrite !Hval by done.
    pow_num. intros Heq.
    assert (a' = a) as -> by lia. assert (b' = b) as -> by lia.
    assert (c' = c) as -> by lia. by assert (d' = d) as -> by lia.
  - apply ipToInt_range.
Qed.

Lemma ipToInt_packs_octets_witness :
  ipToInt (dotted 192 168 1 10) = 192 * 2 ^ 24 + 168 * 2 ^ 16 + 1 * 2 ^ 8 + 10.
Proof. apply (ipToInt_packs_octets 192 168 1 10); lia. Defined.

End IpConversion.

(** ** The set of online sessions *)

Section OnlineSessions.
Import Redis.

Lemma elem_of_keys (m : gmap string Z) h :
  h ∈ (map_to_list m).*1 ↔ ∃ t, m !! h = Some t.
Proof.
  rewrite list_elem_of_fmap. split.
  - intros ([h' t] & -> & Hin). exists t. by apply elem_of_map_to_list in Hin.
  - intros (t & Hm). exists (h, t). split; [done |]. by apply elem_of_map_to_list.
Qed.

Lemma live_lookup now (m : gmap string Z) h t :
  filter (fun kv => ¬ (0 <= kv.2 <= now - 300000)) m !! h = Some t
  ↔ m !! h = Some t ∧ ¬ (0 <= t <= now - 300000).
Proof. by rewrite map_lookup_filter_Some. Qed.

(** A session tracked at time [t] is listed as online exactly until five
    minutes have passed: the next reading at clock value [now] lists it if and
    only if [now - 300000 < t].  The reading lists the other sessions by the
    same rule on their own last tracking, changes nothing on the command
    channel, and gives the same list when repeated at the same clock value. *)
Theorem online_for_five_minutes hash t now r r1 :
  trackOnlineSession hash t r = Some r1 →
  0 <= t →
  ∃ l r2,
    getOnlineSessions now r1 = Some (l, r2)
    ∧ (hash ∈ l ↔ now - 300000 < t)
    ∧ (∀ h, h ≠ hash →
         (h ∈ l ↔ ∃ t', online r !! h = Some t' ∧ ¬ (0 <= t' <= now - 300000)))
    ∧ published r2 = published r
    ∧ getOnlineSessions now r2 = Some (l, r2).
Proof.
  unfold trackOnlineSession, getOnlineSessions.
  destruct (up r) eqn:Hup; [| done]. intros [= <-] Ht. cbn [up online published].
  rewrite ?Hup. eexists _, _. split; [reflexivity |]. cbn [up online published].
  rewrite ?Hup. split_and!.
  - rewrite elem_of_keys. split.
    + intros (t' & Hl). apply live_lookup in Hl as [Hl Hnot].
      rewrite lookup_insert_eq in Hl. injection Hl as <-. cbn in Hnot. lia.
    + intros Hlt. exists t. apply live_lookup. rewrite lookup_insert_eq.
      split; [done | lia].
  - intros h Hne. rewrite elem_of_keys. split.
    + intros (t' & Hl). apply live_lookup in Hl as [Hl Hnot].
      rewrite lookup_insert_ne in Hl by done. by exists t'.
    + intros (t' & Hl & Hnot). exists t'. apply live_lookup.
      by rewrite lookup_insert_ne.
  - done.
  - by rewrite filter_twice.
Qed.

Lemma online_for_five_minutes_witness :
  ∃ l r2,
    getOnlineSessions 400000 {| published := []; online := <["abcd" := 100000]> ∅; up := true |}
    = Some (l, r2)
    ∧ ("abcd" ∈ l ↔ 400000 - 300000 < 100000).
Proof.
  destruct (online_for_five_minutes "abcd" 100000 400000
              {| published := []; online := ∅; up := true |} _ eq_refl ltac:(lia))
    as (l & r2 & H1 & H2 & _).
  exists l, r2. by split.
Defined.

End OnlineSessions.
